(** * Synthetic FX-order generator ([sample-data/generate_sample_data.py])

    A shallow embedding of the generator script and the properties of the
    records it produces.

    - Python [float]s are IEEE-754 binary64 numbers.  They are modelled by
      the Standard Library's executable specification of binary floating
      point ([SpecFloat]) at precision 53 and maximal exponent 1024, so
      every rounding of the script happens in the model as well.
    - The process-wide random source and the wall clock are the two
      pieces of ambient state; they are threaded explicitly through a
      state-and-exception monad.
    - Python exceptions are values of [exn]. *)

From Stdlib Require Import ZArith List String Ascii Bool Lia.
From Stdlib Require Import SpecFloat.
Import ListNotations.

Local Open Scope string_scope.
Local Open Scope Z_scope.

(** ** Exceptions and results *)

Inductive exn : Type :=
| ValueError
| IndexError
| ZeroDivisionError
| OverflowError.

Inductive result (A : Type) : Type :=
| Ok (a : A)
| Raise (e : exn).

Arguments Ok {A} a.
Arguments Raise {A} e.

(** ** Binary64 floating point, as Python computes with it *)

Module F64.

Definition prec : Z := 53.
Definition emax : Z := 1024.

Definition float : Type := spec_float.

Definition add : float -> float -> float := SFadd prec emax.
Definition sub : float -> float -> float := SFsub prec emax.
Definition mul : float -> float -> float := SFmul prec emax.
Definition div : float -> float -> float := SFdiv prec emax.
Definition opp : float -> float := SFopp.

Definition ltb : float -> float -> bool := SFltb.
Definition leb : float -> float -> bool := SFleb.

(** [float(z)] for an integer [z]: the nearest binary64 number. *)
Definition of_Z (z : Z) : float := binary_normalize prec emax z 0 false.

(** The float [m * 2^e], correctly rounded. *)
Definition ldexp (m e : Z) : float := binary_normalize prec emax m e false.

(** The value of the decimal literal [n / 10^k] (for [n] and [10^k]
    below [2^53], the correctly rounded quotient of two exact floats is
    the binary64 number nearest to the decimal, which is what the
    Python parser produces). *)
Definition dec (n k : Z) : float := div (of_Z n) (of_Z (10 ^ k)).

Definition zero : float := S754_zero false.
Definition one : float := Eval vm_compute in of_Z 1.

Definition is_finite (x : float) : bool :=
  match x with
  | S754_zero _ | S754_finite _ _ _ => true
  | _ => false
  end.

Definition is_zero (x : float) : bool :=
  match x with
  | S754_zero _ => true
  | _ => false
  end.

(** [x > 0.0] *)
Definition is_pos (x : float) : bool := ltb zero x.

(** Python's [x / y] on floats: division by zero raises. *)
Definition truediv (x y : float) : result float :=
  if is_zero y then Raise ZeroDivisionError else Ok (div x y).

(** [int(x)]: truncation toward zero.  [Z.shiftl] by a negative amount
    is a right shift, that is the floor of the non-negative magnitude. *)
Definition to_int (x : float) : result Z :=
  match x with
  | S754_zero _ => Ok 0
  | S754_finite s m e => Ok (cond_Zopp s (Z.shiftl (Zpos m) e))
  | S754_infinity _ => Raise OverflowError
  | S754_nan => Raise ValueError
  end.

(** [num / den] rounded to the nearest integer, ties to even
    ([0 <= num], [0 < den]). *)
Definition round_half_even (num den : Z) : Z :=
  let q := num / den in
  let r := num mod den in
  match 2 * r ?= den with
  | Lt => q
  | Gt => q + 1
  | Eq => if Z.even q then q else q + 1
  end.

(** The magnitude [m * 2^e * 10^nd] rounded to an integer, ties to even. *)
Definition scaled_round (m : positive) (e nd : Z) : Z :=
  if 0 <=? e then Zpos m * 2 ^ e * 10 ^ nd
  else round_half_even (Zpos m * 10 ^ nd) (2 ^ (- e)).

(** [round(x)] with one argument: the nearest integer, ties to even. *)
Definition round_int (x : float) : result Z :=
  match x with
  | S754_zero _ => Ok 0
  | S754_finite s m e => Ok (cond_Zopp s (scaled_round m e 0))
  | S754_infinity _ => Raise OverflowError
  | S754_nan => Raise ValueError
  end.

(** [round(x, nd)] for [0 <= nd]: the exact value of [x] is rounded to
    [nd] decimal places (ties to even) and the resulting decimal is
    converted back to the nearest float; infinities and NaN are
    returned unchanged. *)
Definition round_ndigits (x : float) (nd : Z) : float :=
  match x with
  | S754_finite s m e =>
      match scaled_round m e nd with
      | Zpos n => div (S754_finite s n 0) (S754_finite false (Z.to_pos (10 ^ nd)) 0)
      | _ => S754_zero s
      end
  | _ => x
  end.

End F64.

(** ** The ambient state: random source and wall clock

    [rng] is the stream of raw outputs of the generator still to be
    consumed and [clock] the stream of readings the next calls of
    [datetime.now()] return, in microseconds. *)

Record world : Type := mkWorld {
  rng : nat -> Z;
  clock : nat -> Z
}.

Definition M (A : Type) : Type := world -> result (A * world).

Definition ret {A} (a : A) : M A := fun w => Ok (a, w).

Definition bind {A B} (c : M A) (k : A -> M B) : M B :=
  fun w =>
    match c w with
    | Ok (a, w') => k a w'
    | Raise e => Raise e
    end.

Definition raise {A} (e : exn) : M A := fun _ => Raise e.

Definition lift {A} (r : result A) : M A :=
  fun w => match r with Ok a => Ok (a, w) | Raise e => Raise e end.

Declare Scope py_scope.
Delimit Scope py_scope with py.
Notation "x <- c ;; k" := (bind c (fun x => k))
  (at level 100, c at next level, right associativity) : py_scope.
Notation "' pat <- c ;; k" := (bind c (fun x => match x with pat => k end))
  (at level 100, pat pattern, c at next level, right associativity) : py_scope.
Local Open Scope py_scope.

Definition tail_stream {A} (s : nat -> A) : nat -> A := fun n => s (S n).

(** The next raw output of the random generator. *)
Definition next_raw : M Z :=
  fun w => Ok (rng w 0%nat, mkWorld (tail_stream (rng w)) (clock w)).

(** The next reading of the wall clock. *)
Definition datetime_now : M Z :=
  fun w => Ok (clock w 0%nat, mkWorld (rng w) (tail_stream (clock w))).

(** ** The [random] module

    The Mersenne Twister is abstracted to its stream of raw outputs.
    [random()] yields a multiple of [2^-53] in [[0, 1)]; [_randbelow n]
    (rejection sampling over random bits in CPython) yields an integer
    of [[0, n)]. *)

Module random.

Definition random : M F64.float :=
  k <- next_raw ;; ret (F64.ldexp (k mod 2 ^ 53) (- 53)).

Definition randbelow (n : Z) : M Z :=
  k <- next_raw ;; ret (k mod n).

(** [randint(a, b)]: an integer [N] with [a <= N <= b]. *)
Definition randint (a b : Z) : M Z :=
  if b <? a then raise ValueError
  else (r <- randbelow (b - a + 1) ;; ret (a + r)).

(** [uniform(a, b)] is [a + (b - a) * random()]. *)
Definition uniform (a b : F64.float) : M F64.float :=
  u <- random ;; ret (F64.add a (F64.mul (F64.sub b a) u)).

(** [choice(seq)]: [seq[_randbelow(len(seq))]]. *)
Definition choice {A} (seq : list A) : M A :=
  match seq with
  | [] => raise IndexError
  | _ :: _ =>
      i <- randbelow (Z.of_nat (List.length seq)) ;;
      match nth_error seq (Z.to_nat i) with
      | Some x => ret x
      | None => raise IndexError
      end
  end.

(** [choices(population, k=k)] without weights: [k] elements of the
    population, drawn with replacement. *)
Fixpoint choices_k {A} (population : list A) (k : nat) : M (list A) :=
  match k with
  | O => ret []
  | S k' =>
      x <- choice population ;;
      xs <- choices_k population k' ;;
      ret (x :: xs)
  end.

(** [itertools.accumulate] over floats. *)
Fixpoint accumulate_from (acc : F64.float) (ws : list F64.float) : list F64.float :=
  match ws with
  | [] => []
  | x :: ws' => let acc' := F64.add acc x in acc' :: accumulate_from acc' ws'
  end.

Definition accumulate (ws : list F64.float) : list F64.float :=
  match ws with
  | [] => []
  | x :: ws' => x :: accumulate_from x ws'
  end.

(** [bisect_right(a, x, 0, hi)] on a non-decreasing [a]: the number of
    entries among the first [hi] that are [<= x]. *)
Fixpoint bisect (a : list F64.float) (x : F64.float) (hi : nat) : nat :=
  match hi, a with
  | S hi', y :: a' => if F64.ltb x y then O else S (bisect a' x hi')
  | _, _ => O
  end.

(** [choices(population, weights=weights)[0]]: one weighted draw. *)
Definition choices1 {A} (population : list A) (weights : list F64.float) : M A :=
  let n := List.length population in
  let cum_weights := accumulate weights in
  if negb (Nat.eqb (List.length cum_weights) n) then raise ValueError
  else
    match cum_weights with
    | [] => raise IndexError
    | _ :: _ =>
        let total := F64.add (last cum_weights F64.zero) F64.zero in
        if F64.leb total F64.zero then raise ValueError
        else if negb (F64.is_finite total) then raise ValueError
        else
          u <- random ;;
          match nth_error population (bisect cum_weights (F64.mul u total) (n - 1)) with
          | Some x => ret x
          | None => raise IndexError
          end
    end.

(** [pool[j] = v] *)
Fixpoint set_nth {A} (l : list A) (j : nat) (v : A) : list A :=
  match l, j with
  | [], _ => []
  | _ :: l', O => v :: l'
  | x :: l', S j' => x :: set_nth l' j' v
  end.

(** The selection loop of [sample], over a pool of [n] live entries:
<<
    for i in range(k):
        j = randbelow(n - i)
        result[i] = pool[j]
        pool[j] = pool[n - i - 1]
>>  *)
Fixpoint sample_loop {A} (pool : list A) (n : nat) (k : nat) : M (list A) :=
  match k with
  | O => ret []
  | S k' =>
      j <- randbelow (Z.of_nat n) ;;
      match nth_error pool (Z.to_nat j), nth_error pool (n - 1) with
      | Some x, Some y =>
          rest <- sample_loop (set_nth pool (Z.to_nat j) y) (n - 1) k' ;;
          ret (x :: rest)
      | _, _ => raise IndexError
      end
  end.

(** [sample(population, k)]; populations of at most 21 elements are
    sampled from a pool copy, which is the case modelled. *)
Definition sample {A} (population : list A) (k : nat) : M (list A) :=
  if (List.length population <? k)%nat then raise ValueError
  else sample_loop population (List.length population) k.

End random.

(** ** [datetime]

    A naive [datetime] is a number of microseconds, a [timedelta] a
    difference of two.  [strftime("%Y-%m-%d")] keeps the calendar day
    only; a formatted date is represented by its day number, which the
    zero-padded rendering orders the same way. *)

Module datetime.

Definition datetime : Type := Z.
Definition date : Type := Z.

Definition day_us : Z := 86400 * 1000000.

(** [timedelta(days=n)] *)
Definition timedelta_days (n : Z) : Z := n * day_us.

(** [td.days] of a normalised [timedelta]: the floor of the quotient. *)
Definition days (td : Z) : Z := td / day_us.

(** [dt.strftime("%Y-%m-%d")] *)
Definition strftime_ymd (dt : datetime) : date := dt / day_us.

End datetime.

(** ** Python values stored in an order record *)

Inductive pyval : Type :=
| VStr (s : string)
| VInt (z : Z)
| VFloat (x : F64.float)
| VDate (d : datetime.date)
| VNone.

(** A [dict] with string keys, in insertion order. *)
Definition pydict : Type := list (string * pyval).

Fixpoint dict_get {V} (d : list (string * V)) (k : string) : option V :=
  match d with
  | [] => None
  | (k', v) :: d' => if String.eqb k k' then Some v else dict_get d' k
  end.

(** [d.get(k, default)] *)
Definition dict_get_default {V} (d : list (string * V)) (k : string) (default : V) : V :=
  match dict_get d k with
  | Some v => v
  | None => default
  end.

(** ** Configuration of the script *)

Definition CURRENCIES : list string :=
  ["EUR"; "USD"; "CHF"; "GBP"; "DKK"; "SEK"; "NOK"; "JPY"].

Definition BASE_CURRENCY : string := "EUR".

Definition EXCHANGE_RATES : list (string * F64.float) :=
  [ ("EUR", F64.dec 10 1);
    ("USD", F64.dec 105 2);
    ("CHF", F64.dec 94 2);
    ("GBP", F64.dec 86 2);
    ("DKK", F64.dec 746 2);
    ("SEK", F64.dec 1120 2);
    ("NOK", F64.dec 1180 2);
    ("JPY", F64.dec 1620 1) ].

Definition FX_ORDER_TYPES : list string := ["forward"; "chain"; "spot"].
Definition FX_ORDER_TYPE_WEIGHTS : list F64.float :=
  [F64.dec 3 1; F64.dec 6 1; F64.dec 1 1].

Definition MARKET_DIRECTIONS : list string := ["buy"; "sell"].

Definition STATUSES : list string := ["open"; "closed_to_trading"; "completed"].
Definition STATUS_WEIGHTS : list F64.float :=
  [F64.dec 5 1; F64.dec 3 1; F64.dec 2 1].

Definition LIQUIDITY_PROVIDERS : list string :=
  ["SIVB"; "RBS"; "SEB"; "BARC"; "CITI"; "HSBC"].

(** [string.ascii_uppercase + string.digits] *)
Definition ascii_uppercase_digits : list ascii :=
  list_ascii_of_string "ABCDEFGHIJKLMNOPQRSTUVWXYZ0123456789".

(** ** The generator *)

Definition generate_reference (order_type : string) : M string :=
  chars <- random.choices_k ascii_uppercase_digits 8 ;;
  let suffix := string_of_list_ascii chars in
  if String.eqb order_type "chain" then ret ("KCH-" ++ suffix)
  else ret ("K-" ++ suffix).

Definition generate_rate (buy_currency sell_currency : string) : M F64.float :=
  if String.eqb buy_currency sell_currency then ret F64.one
  else
    let buy_rate := dict_get_default EXCHANGE_RATES buy_currency F64.one in
    let sell_rate := dict_get_default EXCHANGE_RATES sell_currency F64.one in
    base_rate <- lift (F64.truediv sell_rate buy_rate) ;;
    variation <- random.uniform (F64.opp (F64.dec 2 2)) (F64.dec 2 2) ;;
    ret (F64.round_ndigits (F64.mul base_rate (F64.add (F64.of_Z 1) variation)) 7).

Definition SIZE_TYPES : list string := ["small"; "medium"; "large"; "very_large"].
Definition SIZE_WEIGHTS : list F64.float :=
  [F64.dec 3 1; F64.dec 4 1; F64.dec 2 1; F64.dec 1 1].

(** The branch of [generate_amount_cents] taken for a size type; the
    integer literals are [100_00], [50_000_00], [500_000_00],
    [5_000_000_00] and [100_000_000_00]. *)
Definition amount_for_size (size_type : string) : M Z :=
  if String.eqb size_type "small" then
    (r <- random.randint 10000 5000000 ;; ret (r * 100))
  else if String.eqb size_type "medium" then
    (r <- random.randint 5000000 50000000 ;; ret (r * 100))
  else if String.eqb size_type "large" then
    (r <- random.randint 50000000 500000000 ;; ret (r * 100))
  else
    (r <- random.randint 500000000 10000000000 ;; ret (r * 100)).

Definition generate_amount_cents : M Z :=
  size_type <- random.choices1 SIZE_TYPES SIZE_WEIGHTS ;;
  amount_for_size size_type.

(** [status in ["closed_to_trading", "completed"]] *)
Definition is_executed (status : string) : bool :=
  String.eqb status "closed_to_trading" || String.eqb status "completed".

Definition generate_dates (status : string)
  : M (datetime.date * option datetime.date * datetime.date) :=
  days_ago <- random.randint 0 365 ;;
  now <- datetime_now ;;
  let creation_date := now - datetime.timedelta_days days_ago in
  value_date_offset <- random.randint 1 365 ;;
  let value_date := creation_date + datetime.timedelta_days value_date_offset in
  execution_date <-
    (if is_executed status then
       now' <- datetime_now ;;
       let max_exec_days := Z.min days_ago (datetime.days (now' - creation_date)) in
       if 0 <? max_exec_days then
         exec_offset <- random.randint 0 max_exec_days ;;
         ret (Some (creation_date + datetime.timedelta_days exec_offset))
       else ret None
     else ret None) ;;
  ret (datetime.strftime_ymd creation_date,
       option_map datetime.strftime_ymd execution_date,
       datetime.strftime_ymd value_date).

Definition non_eur : list string :=
  filter (fun c => negb (String.eqb c "EUR")) CURRENCIES.

Definition generate_currency_pair : M (string * string) :=
  u <- random.random ;;
  if F64.ltb u (F64.dec 7 1) then
    other <- random.choice non_eur ;;
    u' <- random.random ;;
    if F64.ltb u' (F64.dec 5 1) then ret ("EUR", other)
    else ret (other, "EUR")
  else
    pair <- random.sample non_eur 2 ;;
    match pair with
    | [a; b] => ret (a, b)
    | _ => raise ValueError
    end.

Definition opt_date (d : option datetime.date) : pyval :=
  match d with
  | Some d => VDate d
  | None => VNone
  end.

Definition generate_order : M pydict :=
  fx_order_type <- random.choices1 FX_ORDER_TYPES FX_ORDER_TYPE_WEIGHTS ;;
  reference <- generate_reference fx_order_type ;;
  market_direction <- random.choice MARKET_DIRECTIONS ;;
  status <- random.choices1 STATUSES STATUS_WEIGHTS ;;
  '(buy_currency, sell_currency) <- generate_currency_pair ;;
  rate <- generate_rate buy_currency sell_currency ;;
  buy_amount_cents <- generate_amount_cents ;;
  sell_amount_cents <- lift (F64.to_int (F64.mul (F64.of_Z buy_amount_cents) rate)) ;;
  let '(amount_cents, counter_amount_cents, currency, counter_currency) :=
    if String.eqb market_direction "buy"
    then (buy_amount_cents, sell_amount_cents, buy_currency, sell_currency)
    else (sell_amount_cents, buy_amount_cents, sell_currency, buy_currency) in
  '(creation_date, execution_date, value_date) <- generate_dates status ;;
  liquidity_provider <- random.choice LIQUIDITY_PROVIDERS ;;
  ret [ ("id", VStr reference);
        ("reference", VStr reference);
        ("fx_order_type", VStr fx_order_type);
        ("source", VStr "fx_order");
        ("creation_date", VDate creation_date);
        ("market_direction", VStr market_direction);
        ("buy_amount_cents", VInt buy_amount_cents);
        ("sell_amount_cents", VInt sell_amount_cents);
        ("buy_currency", VStr buy_currency);
        ("sell_currency", VStr sell_currency);
        ("amount_cents", VInt amount_cents);
        ("counter_amount_cents", VInt counter_amount_cents);
        ("currency", VStr currency);
        ("counter_currency", VStr counter_currency);
        ("value_date", VDate value_date);
        ("rate", VFloat rate);
        ("liquidity_provider", VStr liquidity_provider);
        ("execution_date", opt_date execution_date);
        ("status", VStr status) ].

(** The state after one raw draw was consumed. *)
Definition advance (w : world) : world :=
  mkWorld (tail_stream (rng w)) (clock w).

(** The state after one clock reading was consumed. *)
Definition tick (w : world) : world :=
  mkWorld (rng w) (tail_stream (clock w)).

(** The state given by finite prefixes of the two streams. *)
Definition world_of (draws clocks : list Z) : world :=
  mkWorld (fun n => nth n draws 0) (fun n => nth n clocks 0).

(** The checks [choices] performs on its weights before it draws. *)
Definition weights_ok {A} (population : list A) (weights : list F64.float) : bool :=
  let cum_weights := random.accumulate weights in
  let total := F64.add (last cum_weights F64.zero) F64.zero in
  Nat.eqb (List.length cum_weights) (List.length population)
  && negb (Nat.eqb (List.length cum_weights) 0)
  && negb (F64.leb total F64.zero)
  && F64.is_finite total.

(** A computation that only consumes randomness leaves the clock alone. *)
Definition rng_only {A} (c : M A) : Prop :=
  forall w a w', c w = Ok (a, w') -> clock w' = clock w.

(** The bound on the execution offset computed by [generate_dates]
    from the drawn [days_ago] and the two clock readings:
    [min(days_ago, (datetime.now() - creation_date).days)]. *)
Definition max_exec_days (days_ago now now' : Z) : Z :=
  Z.min days_ago
    (datetime.days (now' - (now - datetime.timedelta_days days_ago))).

(** ** Magnitude classes of floats

    The binade of the magnitude [m * 2^e] is [floor (log2 (m * 2^e))]. *)
Definition binade (m : positive) (e : Z) : Z := Z.log2 (Zpos m) + e.

(** A canonical finite non-zero float of sign [s] whose magnitude lies in
    [[2^lo, 2^(hi+1))]. *)
Definition in_binades (s : bool) (lo hi : Z) (x : F64.float) : Prop :=
  match x with
  | S754_finite s' m e =>
      s' = s /\ bounded F64.prec F64.emax m e = true /\ lo <= binade m e <= hi
  | _ => False
  end.

(** A canonical float that is a zero or has a magnitude below [2^(hi+1)]. *)
Definition below_binade (hi : Z) (x : F64.float) : Prop :=
  match x with
  | S754_zero _ => True
  | S754_finite _ m e => bounded F64.prec F64.emax m e = true /\ binade m e <= hi
  | _ => False
  end.

(** Boolean version of [in_binades], to check constants by computation. *)
Definition in_binadesb (s : bool) (lo hi : Z) (x : F64.float) : bool :=
  match x with
  | S754_finite s' m e =>
      Bool.eqb s' s && bounded F64.prec F64.emax m e
      && (lo <=? binade m e) && (binade m e <=? hi)
  | _ => false
  end.

(** ** The rate as the specification words it

    [table_rate c] is the table entry of currency [c], with the default
    of the lookup; [variation_of k] the value [uniform(-0.02, 0.02)]
    yields on the raw draw [k]; [rate_of] is
    [round(baseRate * (1 + variation), 7)] with
    [baseRate = table[sell] / table[buy]]. *)
Definition table_rate (c : string) : F64.float :=
  dict_get_default EXCHANGE_RATES c F64.one.

Definition variation_of (k : Z) : F64.float :=
  F64.add (F64.opp (F64.dec 2 2))
    (F64.mul (F64.sub (F64.dec 2 2) (F64.opp (F64.dec 2 2)))
       (F64.ldexp (k mod 2 ^ 53) (- 53))).

Definition rate_of (buy_currency sell_currency : string) (k : Z) : F64.float :=
  F64.round_ndigits
    (F64.mul (F64.div (table_rate sell_currency) (table_rate buy_currency))
       (F64.add (F64.of_Z 1) (variation_of k)))
    7.

(** The dict literal [generate_order] returns, with the
    direction-dependent projection of the buy and sell legs. *)
Definition order_record
    (reference fx_order_type market_direction status : string)
    (buy_currency sell_currency : string) (rate : F64.float)
    (buy_amount_cents sell_amount_cents : Z)
    (creation_date : datetime.date) (execution_date : option datetime.date)
    (value_date : datetime.date) (liquidity_provider : string) : pydict :=
  let '(amount_cents, counter_amount_cents, currency, counter_currency) :=
    if String.eqb market_direction "buy"
    then (buy_amount_cents, sell_amount_cents, buy_currency, sell_currency)
    else (sell_amount_cents, buy_amount_cents, sell_currency, buy_currency) in
  [ ("id", VStr reference);
    ("reference", VStr reference);
    ("fx_order_type", VStr fx_order_type);
    ("source", VStr "fx_order");
    ("creation_date", VDate creation_date);
    ("market_direction", VStr market_direction);
    ("buy_amount_cents", VInt buy_amount_cents);
    ("sell_amount_cents", VInt sell_amount_cents);
    ("buy_currency", VStr buy_currency);
    ("sell_currency", VStr sell_currency);
    ("amount_cents", VInt amount_cents);
    ("counter_amount_cents", VInt counter_amount_cents);
    ("currency", VStr currency);
    ("counter_currency", VStr counter_currency);
    ("value_date", VDate value_date);
    ("rate", VFloat rate);
    ("liquidity_provider", VStr liquidity_provider);
    ("execution_date", opt_date execution_date);
    ("status", VStr status) ].

(** ** Reading a generated record *)

(** The value a computation returns from a given state, if it returns. *)
Definition run {A} (c : M A) (w : world) : option A :=
  match c w with
  | Ok (a, _) => Some a
  | Raise _ => None
  end.

Definition get_str (rec : pydict) (k : string) : option string :=
  match dict_get rec k with Some (VStr s) => Some s | _ => None end.

Definition get_int (rec : pydict) (k : string) : option Z :=
  match dict_get rec k with Some (VInt z) => Some z | _ => None end.

Definition get_float (rec : pydict) (k : string) : option F64.float :=
  match dict_get rec k with Some (VFloat x) => Some x | _ => None end.

Definition get_date (rec : pydict) (k : string) : option datetime.date :=
  match dict_get rec k with Some (VDate d) => Some d | _ => None end.

(** A field holding a date or [None]. *)
Definition get_opt_date (rec : pydict) (k : string) : option (option datetime.date) :=
  match dict_get rec k with
  | Some (VDate d) => Some (Some d)
  | Some VNone => Some None
  | _ => None
  end.

(** "Today" for a record generated from state [w]: the calendar day of
    the clock reading its creation date is counted back from. *)
Definition today (w : world) : datetime.date :=
  datetime.strftime_ymd (clock w 0%nat).

(** The fields of [OrderRecord] as section 3 of the specification lists
    them. *)
Definition spec_OrderRecord_fields : list string :=
  [ "reference"; "orderType"; "marketDirection"; "status";
    "buyCurrency"; "sellCurrency"; "rate";
    "buyAmountCents"; "sellAmountCents";
    "currency"; "counterCurrency"; "amountCents"; "counterAmountCents";
    "creationDate"; "valueDate"; "executionDate"; "liquidityProvider" ].

(** ** Sample states

    Two states of the random source and the clock in which the status
    draw selects "closed_to_trading" and [days_ago] is drawn as 5, resp.
    3; the clock advances by a few microseconds between its readings. *)
Definition world_closed_5_days : world :=
  world_of [0; 0; 0; 0; 0; 0; 0; 0; 0; 0; 2 ^ 52; 0; 0; 0; 0; 0; 0; 5; 9; 3]
           [1000 * datetime.day_us; 1000 * datetime.day_us + 7].

Definition world_closed_3_days : world :=
  world_of [0; 1; 2; 3; 4; 5; 6; 7; 8; 1; 2 ^ 52; 0; 2; 0; 2 ^ 52; 0; 7; 3; 30; 2; 4]
           [2000 * datetime.day_us + 11; 2000 * datetime.day_us + 19].

(** A state in which the status draw selects "closed_to_trading",
    [days_ago] is drawn as 1 and the second reading of the clock is one
    microsecond earlier than the first, on the same calendar day. *)
Definition world_clock_steps_back : world :=
  world_of [0; 0; 0; 0; 0; 0; 0; 0; 0; 0; 2 ^ 52; 0; 0; 0; 0; 0; 0; 1]
           [1000 * datetime.day_us + 500; 1000 * datetime.day_us + 499].

(** [a * 2^ea <= b * 2^eb], stated over the integers. *)
Definition le_scaled (a ea b eb : Z) : Prop :=
  a * 2 ^ (ea - Z.min ea eb) <= b * 2 ^ (eb - Z.min ea eb).

(** A float that is zero, or canonical with a magnitude of at most
    [mY * 2^eY]. *)
Definition mag_le (x : F64.float) (mY : positive) (eY : Z) : Prop :=
  match x with
  | S754_zero _ => True
  | S754_finite _ m e =>
      bounded F64.prec F64.emax m e = true /\ le_scaled (Zpos m) e (Zpos mY) eY
  | _ => False
  end.

(** The float [0.02] of the source, [5764607523034235 * 2^-58]. *)
Definition variation_bound : F64.float := F64.dec 2 2.

(** ** Draws

    Helpers to steer and to read the draws of the generator. *)

(** The value [random()] returns on the raw draw [k]. *)
Definition random_of (k : Z) : F64.float := F64.ldexp (k mod 2 ^ 53) (- 53).

(** The state that yields [k] as its next raw draw and continues as [w]. *)
Definition push_draw (k : Z) (w : world) : world :=
  mkWorld (fun n => match n with O => k | S n' => rng w n' end) (clock w).

(** Draws that steer [generate_currency_pair]: a first [random()] of 0
    selects the EUR branch, where the second draw is the index of the
    other currency and a third draw of 0 or [2^52] ([random()] 0 or 0.5)
    its side; a first [random()] of [1 - 2^-53] selects the cross branch,
    where the two next draws are the positions [sample] picks. *)
Definition pair_draws : list (list Z) :=
  map (fun i => [0; i; 0]) [0; 1; 2; 3; 4; 5; 6]
  ++ map (fun i => [0; i; 2 ^ 52]) [0; 1; 2; 3; 4; 5; 6]
  ++ flat_map (fun j1 => map (fun j2 => [2 ^ 53 - 1; j1; j2]) [0; 1; 2; 3; 4; 5])
       [0; 1; 2; 3; 4; 5; 6].

(** A state for [generate_dates]: [days_ago] is drawn as 5, the value
    offset as 10 and the execution offset as 2; the second reading of the
    clock is two days and 100 microseconds earlier than the first. *)
Definition world_clock_two_days_back : world :=
  world_of [5; 9; 2]
           [1000 * datetime.day_us + 500; 998 * datetime.day_us + 400].

(** * Properties *)

(** ** Running monadic code *)

Section Monad.
Context {A B : Type}.

Lemma bind_ok (c : M A) (k : A -> M B) w a w' :
  c w = Ok (a, w') -> bind c k w = k a w'.
Proof. intros H. unfold bind. now rewrite H. Qed.

Lemma bind_inv (c : M A) (k : A -> M B) w b w2 :
  bind c k w = Ok (b, w2) ->
  exists a w1, c w = Ok (a, w1) /\ k a w1 = Ok (b, w2).
Proof.
  unfold bind. destruct (c w) as [[a w1]|e]; [|discriminate].
  intros H. now exists a, w1.
Qed.

Lemma ret_inv (a a' : A) w w' : ret a w = Ok (a', w') -> a' = a /\ w' = w.
Proof. unfold ret. intros H. now inversion H. Qed.
End Monad.

(** Splits a successful run of [x <- c ;; k] found in hypothesis [H]. *)
Ltac inv_bind H :=
  let a := fresh "a" in
  let w := fresh "w" in
  let Hc := fresh "Hc" in
  apply bind_inv in H; destruct H as (a & w & Hc & H).

Ltac inv_ret H :=
  apply ret_inv in H; destruct H as [? ?]; subst.

(** ** The random primitives *)

Lemma next_raw_run w : next_raw w = Ok (rng w 0%nat, advance w).
Proof. reflexivity. Qed.

Lemma datetime_now_run w : datetime_now w = Ok (clock w 0%nat, tick w).
Proof. reflexivity. Qed.

Lemma randbelow_run n w :
  random.randbelow n w = Ok (rng w 0%nat mod n, advance w).
Proof. reflexivity. Qed.

Lemma randint_run a b w :
  a <= b ->
  random.randint a b w = Ok (a + rng w 0%nat mod (b - a + 1), advance w).
Proof.
  intros Hab. unfold random.randint.
  destruct (Z.ltb_spec b a); [lia|]. reflexivity.
Qed.

Lemma randint_inv a b w r w' :
  random.randint a b w = Ok (r, w') ->
  a <= r <= b /\ w' = advance w.
Proof.
  unfold random.randint. destruct (Z.ltb_spec b a) as [Hlt|Hle].
  - discriminate.
  - intros H. cbv [bind random.randbelow next_raw ret] in H.
    inversion H; subst; clear H. split; [|reflexivity].
    pose proof (Z.mod_pos_bound (rng w 0%nat) (b - a + 1)). lia.
Qed.

Lemma choice_run {A} (seq : list A) (d : A) w :
  seq <> [] ->
  random.choice seq w =
    Ok (nth (Z.to_nat (rng w 0%nat mod Z.of_nat (List.length seq))) seq d, advance w).
Proof.
  intros Hne. unfold random.choice. destruct seq as [|x l]; [congruence|].
  set (s := x :: l) in *.
  rewrite (bind_ok _ _ _ _ _ (randbelow_run _ w)).
  assert (Hlen : (0 < List.length s)%nat) by (subst s; simpl; lia).
  pose proof (Z.mod_pos_bound (rng w 0%nat) (Z.of_nat (List.length s))) as Hb.
  assert (Hi : (Z.to_nat (rng w 0%nat mod Z.of_nat (List.length s)) < List.length s)%nat) by lia.
  destruct (nth_error s _) as [y|] eqn:E.
  - now rewrite (nth_error_nth _ _ d E).
  - apply nth_error_None in E. lia.
Qed.

Lemma choice_inv {A} (seq : list A) w x w' :
  random.choice seq w = Ok (x, w') -> In x seq /\ w' = advance w.
Proof.
  destruct seq as [|y l] eqn:Es; [discriminate|]. rewrite <- Es.
  intros H. rewrite (choice_run seq y) in H by (subst; discriminate).
  inversion H; subst x w'; clear H. split; [|reflexivity].
  apply nth_In.
  pose proof (Z.mod_pos_bound (rng w 0%nat) (Z.of_nat (List.length seq))) as Hb.
  assert (0 < List.length seq)%nat by (subst; simpl; lia). lia.
Qed.

Lemma choices_k_inv {A} (population : list A) k w xs w' :
  random.choices_k population k w = Ok (xs, w') ->
  List.length xs = k /\ Forall (fun x => In x population) xs.
Proof.
  revert w xs w'. induction k as [|k IH]; simpl; intros w xs w' H.
  - inv_ret H. split; [reflexivity|constructor].
  - inv_bind H. apply choice_inv in Hc as [Hin _].
    inv_bind H. apply IH in Hc as [Hlen Hall].
    inv_ret H. split; [simpl; congruence|now constructor].
Qed.

Lemma choices_k_total {A} (population : list A) k w :
  population <> [] ->
  exists xs w', random.choices_k population k w = Ok (xs, w') /\ clock w' = clock w.
Proof.
  intros Hne. revert w. induction k as [|k IH]; simpl; intros w.
  - now exists [], w.
  - destruct population as [|d l] eqn:E; [congruence|]. rewrite <- E in *.
    rewrite (bind_ok _ _ _ _ _ (choice_run population d w Hne)).
    destruct (IH (advance w)) as (xs & w' & Hxs & Hclk).
    rewrite (bind_ok _ _ _ _ _ Hxs). eexists _, _. split; [reflexivity|exact Hclk].
Qed.

Lemma bisect_le a x hi : (random.bisect a x hi <= hi)%nat.
Proof.
  revert a. induction hi as [|hi IH]; intros [|y a']; simpl; try lia.
  destruct (F64.ltb x y); [lia|]. specialize (IH a'). lia.
Qed.

Lemma random_run w :
  random.random w = Ok (F64.ldexp (rng w 0%nat mod 2 ^ 53) (- 53), advance w).
Proof. reflexivity. Qed.

Lemma choices1_inv {A} (population : list A) weights w x w' :
  random.choices1 population weights w = Ok (x, w') ->
  In x population /\ w' = advance w.
Proof.
  unfold random.choices1.
  destruct (negb _); [discriminate|].
  destruct (random.accumulate weights) as [|c cs]; [discriminate|].
  destruct (F64.leb _ _); [discriminate|].
  destruct (negb _); [discriminate|].
  rewrite (bind_ok _ _ _ _ _ (random_run w)).
  destruct (nth_error population _) as [y|] eqn:E; [|discriminate].
  intros H. inv_ret H. split; [|reflexivity]. eapply nth_error_In; eassumption.
Qed.

Lemma choices1_total {A} (population : list A) weights w :
  weights_ok population weights = true ->
  exists x, random.choices1 population weights w = Ok (x, advance w).
Proof.
  unfold weights_ok, random.choices1. cbv zeta. intros H.
  apply andb_prop in H as [H Hfin]. apply andb_prop in H as [H Hpos].
  apply andb_prop in H as [Hlen Hne].
  rewrite Hlen. cbn [negb].
  apply Nat.eqb_eq in Hlen.
  destruct (random.accumulate weights) as [|c cs] eqn:Ec; [discriminate|].
  apply negb_true_iff in Hpos. rewrite Hpos, Hfin. cbn [negb].
  rewrite (bind_ok _ _ _ _ _ (random_run w)).
  match goal with |- context [nth_error population ?i] =>
    assert (Hi : (i <= List.length population - 1)%nat) by apply bisect_le;
    destruct (nth_error population i) as [y|] eqn:E
  end.
  - now exists y.
  - apply nth_error_None in E. simpl in Hlen. lia.
Qed.

(** ** Computations that never read the clock *)

Lemma rng_only_ret {A} (a : A) : rng_only (ret a).
Proof. intros w a' w' H. now inv_ret H. Qed.

Lemma rng_only_raise {A} e : rng_only (@raise A e).
Proof. intros w a w' H. discriminate. Qed.

Lemma rng_only_lift {A} (r : result A) : rng_only (lift r).
Proof. intros w a w' H. unfold lift in H. destruct r; now inversion H. Qed.

Lemma rng_only_bind {A B} (c : M A) (k : A -> M B) :
  rng_only c -> (forall a, rng_only (k a)) -> rng_only (bind c k).
Proof.
  intros Hc Hk w b w' H. inv_bind H.
  apply Hc in Hc0. apply Hk in H. congruence.
Qed.

Lemma rng_only_next_raw : rng_only next_raw.
Proof. intros w a w' H. now inversion H. Qed.

Create HintDb rng.
#[local] Hint Resolve rng_only_ret rng_only_raise rng_only_lift rng_only_next_raw : rng.

(** Decomposes a computation built from binds, conditionals and matches. *)
Ltac rng_only_step :=
  match goal with
  | |- rng_only (bind _ _) => apply rng_only_bind; [|intros]
  | |- rng_only (if ?b then _ else _) => destruct b
  | |- rng_only (match ?x with _ => _ end) => destruct x
  | |- rng_only _ => solve [auto with rng]
  end.

Lemma rng_only_random : rng_only random.random.
Proof. unfold random.random. repeat rng_only_step. Qed.

Lemma rng_only_randint a b : rng_only (random.randint a b).
Proof. unfold random.randint, random.randbelow. repeat rng_only_step. Qed.

Lemma rng_only_choice {A} (seq : list A) : rng_only (random.choice seq).
Proof. unfold random.choice, random.randbelow. repeat rng_only_step. Qed.

Lemma rng_only_choices_k {A} (population : list A) k :
  rng_only (random.choices_k population k).
Proof.
  induction k; simpl; [auto with rng|].
  pose proof (rng_only_choice population). repeat rng_only_step; auto with rng.
Qed.

Lemma rng_only_choices1 {A} (population : list A) weights :
  rng_only (random.choices1 population weights).
Proof. intros w a w' H. apply choices1_inv in H as [_ ->]. reflexivity. Qed.

Lemma rng_only_uniform a b : rng_only (random.uniform a b).
Proof.
  unfold random.uniform. pose proof rng_only_random. repeat rng_only_step; auto.
Qed.

Lemma rng_only_sample_loop {A} (pool : list A) n k :
  rng_only (random.sample_loop pool n k).
Proof.
  revert pool n. induction k; intros pool n; simpl; [auto with rng|].
  unfold random.randbelow. repeat rng_only_step; auto with rng.
Qed.

Lemma rng_only_sample {A} (population : list A) k :
  rng_only (random.sample population k).
Proof.
  unfold random.sample. destruct (_ <? _)%nat; [auto with rng|].
  apply rng_only_sample_loop.
Qed.

#[local] Hint Resolve rng_only_random rng_only_randint rng_only_choice
  rng_only_choices_k rng_only_choices1 rng_only_uniform rng_only_sample : rng.

Lemma rng_only_generate_reference ot : rng_only (generate_reference ot).
Proof. unfold generate_reference. repeat rng_only_step. Qed.

Lemma rng_only_generate_rate b s : rng_only (generate_rate b s).
Proof. unfold generate_rate. repeat rng_only_step. Qed.

Lemma rng_only_amount_for_size st : rng_only (amount_for_size st).
Proof. unfold amount_for_size. repeat rng_only_step. Qed.

Lemma rng_only_generate_amount_cents : rng_only generate_amount_cents.
Proof.
  unfold generate_amount_cents. pose proof rng_only_amount_for_size.
  repeat rng_only_step; auto.
Qed.

Lemma rng_only_generate_currency_pair : rng_only generate_currency_pair.
Proof. unfold generate_currency_pair. repeat rng_only_step. Qed.

(** ** Order amounts *)

Lemma amount_for_size_inv size_type w a w' :
  amount_for_size size_type w = Ok (a, w') ->
  exists lo hi r,
    a = r * 100 /\ lo <= r <= hi /\ w' = advance w /\
    (lo, hi) =
      (if String.eqb size_type "small" then (10000, 5000000)
       else if String.eqb size_type "medium" then (5000000, 50000000)
       else if String.eqb size_type "large" then (50000000, 500000000)
       else (500000000, 10000000000)).
Proof.
  unfold amount_for_size.
  repeat match goal with |- context [String.eqb ?x ?y] => destruct (String.eqb x y) end;
    intros H; inv_bind H; apply randint_inv in Hc as [Hr ->]; inv_ret H;
    eexists _, _, _; (split; [reflexivity|]); (split; [eassumption|]);
    split; reflexivity.
Qed.

Lemma amount_for_size_total size_type w :
  exists a, amount_for_size size_type w = Ok (a, advance w).
Proof.
  unfold amount_for_size.
  repeat match goal with |- context [String.eqb ?x ?y] => destruct (String.eqb x y) end;
    match goal with |- context [random.randint ?a ?b] =>
      rewrite (bind_ok _ _ _ _ _ (randint_run a b w ltac:(lia)))
    end; eexists; reflexivity.
Qed.

Lemma generate_amount_cents_inv w a w' :
  generate_amount_cents w = Ok (a, w') ->
  exists size_type,
    In size_type SIZE_TYPES /\
    amount_for_size size_type (advance w) = Ok (a, w').
Proof.
  unfold generate_amount_cents. intros H. inv_bind H.
  apply choices1_inv in Hc as [Hin ->]. now exists a0.
Qed.

Lemma generate_amount_cents_bounds w a w' :
  generate_amount_cents w = Ok (a, w') -> 1000000 <= a <= 1000000000000.
Proof.
  intros H. apply generate_amount_cents_inv in H as (st & _ & H).
  apply amount_for_size_inv in H as (lo & hi & r & -> & Hr & _ & Hb).
  repeat match type of Hb with context [String.eqb ?x ?y] => destruct (String.eqb x y) end;
    inversion Hb; subst; lia.
Qed.

Lemma generate_amount_cents_total w :
  exists a w', generate_amount_cents w = Ok (a, w').
Proof.
  unfold generate_amount_cents.
  destruct (choices1_total SIZE_TYPES SIZE_WEIGHTS w eq_refl) as [st Hst].
  rewrite (bind_ok _ _ _ _ _ Hst).
  destruct (amount_for_size_total st (advance w)) as [a Ha]. eauto.
Qed.

(** ** Dates *)

Lemma strftime_add_days t n :
  datetime.strftime_ymd (t + datetime.timedelta_days n) = datetime.strftime_ymd t + n.
Proof.
  unfold datetime.strftime_ymd, datetime.timedelta_days.
  apply Z.div_add. unfold datetime.day_us. lia.
Qed.

Lemma strftime_sub_days t n :
  datetime.strftime_ymd (t - datetime.timedelta_days n) = datetime.strftime_ymd t - n.
Proof.
  replace (t - datetime.timedelta_days n) with (t + datetime.timedelta_days (- n))
    by (unfold datetime.timedelta_days; lia).
  rewrite strftime_add_days. lia.
Qed.

Lemma days_since_creation now now' n :
  datetime.days (now' - (now - datetime.timedelta_days n)) =
  n + (now' - now) / datetime.day_us.
Proof.
  unfold datetime.days, datetime.timedelta_days.
  replace (now' - (now - n * datetime.day_us)) with ((now' - now) + n * datetime.day_us) by lia.
  rewrite Z.div_add by (unfold datetime.day_us; lia). lia.
Qed.

Lemma max_exec_days_le d now now' : max_exec_days d now now' <= d.
Proof. unfold max_exec_days. lia. Qed.

Lemma max_exec_days_monotone_clock d now now' :
  now <= now' -> max_exec_days d now now' = d.
Proof.
  intros Hclk. unfold max_exec_days. rewrite days_since_creation.
  assert (0 <= (now' - now) / datetime.day_us)
    by (apply Z.div_pos; unfold datetime.day_us; lia).
  lia.
Qed.

(** What a successful run of [generate_dates] computed. *)
Lemma generate_dates_inv status w c e v w' :
  generate_dates status w = Ok ((c, e, v), w') ->
  exists days_ago offset,
    0 <= days_ago <= 365 /\ 1 <= offset <= 365 /\
    c = datetime.strftime_ymd (clock w 0%nat) - days_ago /\
    v = c + offset /\
    let m := max_exec_days days_ago (clock w 0%nat) (clock w 1%nat) in
    if is_executed status && (0 <? m)
    then exists exec_offset, 0 <= exec_offset <= m /\ e = Some (c + exec_offset)
    else e = None.
Proof.
  unfold generate_dates. intros H.
  apply bind_inv in H as (d & w1 & Hd & H). apply randint_inv in Hd as [Hd ->].
  apply bind_inv in H as (now & w2 & Hn & H).
  rewrite datetime_now_run in Hn. inversion Hn; subst now w2; clear Hn.
  apply bind_inv in H as (o & w3 & Ho & H). apply randint_inv in Ho as [Ho ->].
  apply bind_inv in H as (x & w4 & Hx & H).
  apply ret_inv in H as [H ->]. inversion H; subst c e v; clear H.
  cbn [clock tick advance tail_stream rng] in *.
  exists d, o. rewrite !strftime_add_days, !strftime_sub_days.
  repeat (split; [first [assumption | reflexivity]|]).
  cbv zeta.
  destruct (is_executed status); cbn [andb].
  - apply bind_inv in Hx as (now' & w5 & Hn & Hx).
    rewrite datetime_now_run in Hn. inversion Hn; subst now' w5; clear Hn.
    cbn [clock tick advance rng] in Hx. unfold tail_stream in Hx.
    fold (max_exec_days d (clock w 0%nat) (clock w 1%nat)) in Hx.
    destruct (0 <? max_exec_days d (clock w 0%nat) (clock w 1%nat)).
    + apply bind_inv in Hx as (eo & w6 & He & Hx).
      apply randint_inv in He as [He ->]. inv_ret Hx.
      exists eo. cbn [option_map]. rewrite strftime_add_days, strftime_sub_days.
      split; [assumption|reflexivity].
    + inv_ret Hx. reflexivity.
  - inv_ret Hx. reflexivity.
Qed.

(** Runs the leading [randint] of a computation. *)
Ltac run_randint w :=
  match goal with
  | |- context [bind (random.randint ?a ?b) ?k w] =>
      rewrite (bind_ok (random.randint a b) k w _ _ (randint_run a b w ltac:(lia)))
  end.

Lemma generate_dates_total status w :
  exists r w', generate_dates status w = Ok (r, w').
Proof.
  unfold generate_dates.
  run_randint w.
  rewrite (bind_ok _ _ _ _ _ (datetime_now_run _)).
  run_randint (tick (advance w)).
  destruct (is_executed status).
  - match goal with |- context [bind (bind datetime_now ?k) ?k' ?w0] =>
      unfold bind at 1; rewrite (bind_ok datetime_now k w0 _ _ (datetime_now_run _))
    end.
    match goal with |- context [0 <? ?m] => destruct (Z.ltb_spec 0 m) end.
    + match goal with |- context [bind (random.randint ?a ?b) ?k ?w0] =>
        rewrite (bind_ok (random.randint a b) k w0 _ _ (randint_run a b w0 ltac:(lia)))
      end.
      eexists _, _. reflexivity.
    + eexists _, _. reflexivity.
  - eexists _, _. reflexivity.
Qed.

(** ** References *)

Lemma generate_reference_inv order_type w r w' :
  generate_reference order_type w = Ok (r, w') ->
  exists chars,
    List.length chars = 8%nat /\
    Forall (fun ch => In ch ascii_uppercase_digits) chars /\
    r = (if String.eqb order_type "chain" then "KCH-" else "K-")
          ++ string_of_list_ascii chars.
Proof.
  unfold generate_reference. intros H.
  apply bind_inv in H as (chars & w1 & Hc & H).
  apply choices_k_inv in Hc as [Hlen Hall].
  exists chars. repeat (split; [assumption|]).
  destruct (String.eqb order_type "chain"); now inv_ret H.
Qed.

Lemma generate_reference_total order_type w :
  exists r w', generate_reference order_type w = Ok (r, w').
Proof.
  unfold generate_reference.
  destruct (choices_k_total ascii_uppercase_digits 8 w) as (xs & w1 & Hxs & _);
    [discriminate|].
  rewrite (bind_ok _ _ _ _ _ Hxs).
  destruct (String.eqb order_type "chain"); eexists _, _; reflexivity.
Qed.

Lemma length_string_of_list_ascii l :
  String.length (string_of_list_ascii l) = List.length l.
Proof. induction l; simpl; congruence. Qed.

(** ** Sampling without replacement *)

Lemma length_set_nth {A} (l : list A) j v :
  List.length (random.set_nth l j v) = List.length l.
Proof.
  revert j. induction l as [|x l IH]; intros [|j]; simpl; auto.
Qed.

Lemma nth_error_set_nth_same {A} (l : list A) j v :
  (j < List.length l)%nat -> nth_error (random.set_nth l j v) j = Some v.
Proof.
  revert j. induction l as [|x l IH]; intros [|j]; simpl; intros H; try lia; auto.
  apply IH. lia.
Qed.

Lemma nth_error_set_nth_other {A} (l : list A) i j v :
  i <> j -> nth_error (random.set_nth l j v) i = nth_error l i.
Proof.
  revert i j. induction l as [|x l IH]; intros [|i] [|j]; simpl; intros H;
    try congruence; auto.
Qed.

Lemma randbelow_lt n w :
  (0 < n)%nat ->
  (Z.to_nat (rng w 0%nat mod Z.of_nat n) < n)%nat.
Proof.
  intros Hn. pose proof (Z.mod_pos_bound (rng w 0%nat) (Z.of_nat n)). lia.
Qed.

Lemma sample_loop_total {A} (pool : list A) n k w :
  (k <= n <= List.length pool)%nat ->
  exists xs w',
    random.sample_loop pool n k w = Ok (xs, w') /\ List.length xs = k.
Proof.
  revert pool n w. induction k as [|k IH]; intros pool n w Hn; simpl.
  - now exists [], w.
  - rewrite (bind_ok _ _ _ _ _ (randbelow_run _ w)).
    pose proof (randbelow_lt n w ltac:(lia)) as Hj.
    destruct (nth_error pool (Z.to_nat _)) as [x|] eqn:Ex;
      [|apply nth_error_None in Ex; lia].
    destruct (nth_error pool (n - 1)) as [y|] eqn:Ey;
      [|apply nth_error_None in Ey; lia].
    destruct (IH (random.set_nth pool (Z.to_nat (rng w 0%nat mod Z.of_nat n)) y)
                 (n - 1)%nat (advance w)) as (xs & w' & Hxs & Hlen).
    { rewrite length_set_nth. lia. }
    rewrite (bind_ok _ _ _ _ _ Hxs). exists (x :: xs), w'.
    split; [reflexivity|simpl; congruence].
Qed.

Lemma sample_loop_two_distinct {A} (pool : list A) n w a b w' :
  NoDup pool ->
  (2 <= n <= List.length pool)%nat ->
  random.sample_loop pool n 2 w = Ok ([a; b], w') ->
  a <> b /\ In a pool /\ In b pool.
Proof.
  intros Hnd Hn H. simpl in H.
  apply bind_inv in H as (j & w1 & Hj & H).
  rewrite randbelow_run in Hj. inversion Hj; subst j w1; clear Hj.
  pose proof (randbelow_lt n w ltac:(lia)) as Hj.
  set (j := Z.to_nat (rng w 0%nat mod Z.of_nat n)) in *.
  destruct (nth_error pool j) as [x|] eqn:Ex; [|discriminate].
  destruct (nth_error pool (n - 1)) as [y|] eqn:Ey; [|discriminate].
  apply bind_inv in H as (rest & w2 & Hrest & H).
  apply ret_inv in H as [H ->]. inversion H; subst x rest; clear H.
  apply bind_inv in Hrest as (i & w3 & Hi & Hrest).
  rewrite randbelow_run in Hi. inversion Hi; subst i w3; clear Hi.
  pose proof (randbelow_lt (n - 1) (advance w) ltac:(lia)) as Hi.
  cbn [advance rng] in Hi, Hrest.
  set (i := Z.to_nat (tail_stream (rng w) 0%nat mod Z.of_nat (n - 1))) in *.
  destruct (nth_error (random.set_nth pool j y) i) as [x'|] eqn:Ex'; [|discriminate].
  destruct (nth_error (random.set_nth pool j y) (n - 1 - 1)); [|discriminate].
  apply bind_inv in Hrest as (r0 & w4 & Hr0 & Hrest).
  inv_ret Hr0. apply ret_inv in Hrest as [Hrest _].
  inversion Hrest; subst x'; clear Hrest.
  assert (Hx' : exists i', nth_error pool i' = Some b /\ i' <> j).
  { destruct (Nat.eq_dec i j) as [->|Hij].
    - rewrite nth_error_set_nth_same in Ex' by lia. inversion Ex'; subst.
      exists (n - 1)%nat. split; [assumption|lia].
    - rewrite nth_error_set_nth_other in Ex' by assumption. now exists i. }
  destruct Hx' as (i' & Hi' & Hne).
  split; [|split; eapply nth_error_In; eassumption].
  intros ->. apply Hne.
  rewrite NoDup_nth_error in Hnd. symmetry. apply Hnd; [lia|congruence].
Qed.

(** ** Currency pairs *)

Lemma non_eur_spec c : In c non_eur <-> In c CURRENCIES /\ c <> "EUR".
Proof.
  unfold non_eur. rewrite filter_In, negb_true_iff, String.eqb_neq. reflexivity.
Qed.

Lemma NoDup_non_eur : NoDup non_eur.
Proof.
  unfold non_eur. cbn.
  repeat (constructor; [simpl; intuition discriminate|]). constructor.
Qed.

Lemma generate_currency_pair_inv w b s w' :
  generate_currency_pair w = Ok ((b, s), w') ->
  b <> s /\ In b CURRENCIES /\ In s CURRENCIES.
Proof.
  unfold generate_currency_pair. intros H.
  apply bind_inv in H as (u & w1 & _ & H).
  destruct (F64.ltb u (F64.dec 7 1)).
  - apply bind_inv in H as (other & w2 & Ho & H).
    apply choice_inv in Ho as [Ho _]. apply non_eur_spec in Ho as [Hin Hne].
    apply bind_inv in H as (u' & w3 & _ & H).
    assert (HE : In "EUR" CURRENCIES) by (simpl; auto).
    destruct (F64.ltb u' (F64.dec 5 1));
      apply ret_inv in H as [H _]; inversion H; subst; auto.
  - apply bind_inv in H as (pair & w2 & Hp & H).
    destruct pair as [|x [|y [|z pair]]]; try discriminate.
    apply ret_inv in H as [H _]. inversion H; subst x y; clear H.
    unfold random.sample in Hp. cbn [non_eur] in Hp.
    destruct (_ <? _)%nat eqn:E; [discriminate|].
    apply sample_loop_two_distinct in Hp as (Hne & Hb & Hs).
    + apply non_eur_spec in Hb, Hs. tauto.
    + apply NoDup_non_eur.
    + cbn. lia.
Qed.

Lemma generate_currency_pair_total w :
  exists p w', generate_currency_pair w = Ok (p, w').
Proof.
  unfold generate_currency_pair.
  rewrite (bind_ok _ _ _ _ _ (random_run w)).
  destruct (F64.ltb _ (F64.dec 7 1)).
  - rewrite (bind_ok _ _ _ _ _ (choice_run non_eur "EUR" (advance w) ltac:(discriminate))).
    rewrite (bind_ok _ _ _ _ _ (random_run _)).
    destruct (F64.ltb _ (F64.dec 5 1)); eexists _, _; reflexivity.
  - destruct (sample_loop_total non_eur (List.length non_eur) 2 (advance w))
      as (xs & w' & Hxs & Hlen); [cbn; lia|].
    assert (Hs : random.sample non_eur 2 (advance w) = Ok (xs, w')) by exact Hxs.
    rewrite (bind_ok _ _ _ _ _ Hs).
    destruct xs as [|x [|y [|z xs]]]; try discriminate.
    eexists _, _; reflexivity.
Qed.

(** ** Rounding to binary64

    The lemmas of this section follow the rounding of [SpecFloat] step by
    step and bound the binade of its result. *)

Lemma fexp_eq x : fexp F64.prec F64.emax x = Z.max (x - 53) (- 1074).
Proof. reflexivity. Qed.

Lemma digits2_pos_size p : digits2_pos p = Pos.size p.
Proof. induction p; simpl; congruence. Qed.

Lemma Zdigits2_log2 p : Zdigits2 (Zpos p) = Z.log2 (Zpos p) + 1.
Proof.
  unfold Zdigits2. rewrite digits2_pos_size.
  destruct p; simpl; try rewrite Pos2Z.inj_succ; lia.
Qed.

Lemma Zpos_digits2_log2 p : Zpos (digits2_pos p) = Z.log2 (Zpos p) + 1.
Proof. exact (Zdigits2_log2 p). Qed.

Lemma shr_1_m mrs : 0 <= shr_m mrs -> shr_m (shr_1 mrs) = shr_m mrs / 2.
Proof.
  destruct mrs as [m r s]. simpl. intros Hm.
  destruct m as [|[p|p|]|p]; try lia; cbn [shr_m].
  - reflexivity.
  - rewrite Pos2Z.inj_xI. apply Z.div_unique with 1; lia.
  - rewrite Pos2Z.inj_xO. apply Z.div_unique with 0; lia.
  - reflexivity.
Qed.

Lemma iter_shr_1_m p mrs :
  0 <= shr_m mrs -> shr_m (iter_pos shr_1 p mrs) = shr_m mrs / 2 ^ Zpos p.
Proof.
  revert mrs. induction p as [p IH|p IH|]; intros mrs Hm; cbn [iter_pos].
  - assert (H1 : 0 <= shr_m (shr_1 mrs)) by (rewrite shr_1_m by lia; apply Z.div_pos; lia).
    assert (H2 : 0 <= shr_m (iter_pos shr_1 p (shr_1 mrs)))
      by (rewrite IH by lia; apply Z.div_pos; lia).
    rewrite IH, IH, shr_1_m by lia.
    rewrite !Z.div_div by lia. f_equal.
    replace (Zpos p~1) with (1 + Zpos p + Zpos p) by lia.
    rewrite !Z.pow_add_r by lia. change (2 ^ 1) with 2. lia.
  - assert (H2 : 0 <= shr_m (iter_pos shr_1 p mrs))
      by (rewrite IH by lia; apply Z.div_pos; lia).
    rewrite IH, IH by lia. rewrite Z.div_div by lia. f_equal.
    replace (Zpos p~0) with (Zpos p + Zpos p) by lia.
    rewrite Z.pow_add_r by lia. reflexivity.
  - rewrite shr_1_m by lia. reflexivity.
Qed.

(** The mantissa and the exponent after [shr] by [n] places. *)
Lemma shr_spec m l e n :
  0 <= m ->
  let r := shr (shr_record_of_loc m l) e n in
  shr_m (fst r) = m / 2 ^ Z.max n 0 /\ snd r = e + Z.max n 0.
Proof.
  intros Hm. assert (Hrec : shr_m (shr_record_of_loc m l) = m)
    by (destruct l as [|[| |]]; reflexivity).
  destruct n as [|p|p]; cbn [shr fst snd Z.max].
  - rewrite Hrec. change (Z.max 0 0) with 0. rewrite Z.div_1_r. split; [reflexivity|lia].
  - rewrite iter_shr_1_m by lia. rewrite Hrec.
    assert (Z.max (Zpos p) 0 = Zpos p) as -> by lia. split; reflexivity.
  - rewrite Hrec. assert (Z.max (Zneg p) 0 = 0) as -> by lia.
    rewrite Z.div_1_r. split; [reflexivity|lia].
Qed.

Lemma round_nearest_even_range m l :
  round_nearest_even m l = m \/ round_nearest_even m l = m + 1.
Proof.
  destruct l as [|[| |]]; simpl; auto. destruct (Z.even m); auto.
Qed.

(** [binary_round_aux] shifts the mantissa to the target exponent, rounds
    it by at most one unit, and shifts once more in case the rounding
    produced one more digit. *)
Lemma binary_round_aux_shape s p e l :
  let n1 := Z.max (fexp F64.prec F64.emax (Zdigits2 (Zpos p) + e) - e) 0 in
  let m1 := Zpos p / 2 ^ n1 in
  let e1 := e + n1 in
  exists m2,
    (m2 = m1 \/ m2 = m1 + 1) /\
    let n2 := Z.max (fexp F64.prec F64.emax (Zdigits2 m2 + e1) - e1) 0 in
    binary_round_aux F64.prec F64.emax s (Zpos p) e l =
      match m2 / 2 ^ n2 with
      | Z0 => S754_zero s
      | Zpos m => if e1 + n2 <=? F64.emax - F64.prec
                  then S754_finite s m (e1 + n2) else S754_infinity s
      | Zneg _ => S754_nan
      end.
Proof.
  intros n1 m1 e1. unfold binary_round_aux, shr_fexp.
  pose proof (shr_spec (Zpos p) l e
                (fexp F64.prec F64.emax (Zdigits2 (Zpos p) + e) - e) ltac:(lia)) as [Hm He].
  destruct (shr _ e _) as [mrs e'] eqn:E1. cbn [fst snd] in Hm, He.
  fold n1 in Hm, He. fold m1 in Hm. fold e1 in He. subst e'.
  set (m2 := round_nearest_even (shr_m mrs) (loc_of_shr_record mrs)).
  exists m2. split.
  { subst m2. rewrite <- Hm. apply round_nearest_even_range. }
  assert (H0 : 0 <= m2).
  { assert (0 <= m1) by (apply Z.div_pos; lia).
    subst m2. destruct (round_nearest_even_range (shr_m mrs) (loc_of_shr_record mrs)) as [->| ->]; lia. }
  pose proof (shr_spec m2 loc_Exact e1
                (fexp F64.prec F64.emax (Zdigits2 m2 + e1) - e1) H0) as [Hm' He'].
  destruct (shr _ e1 _) as [mrs' e''] eqn:E2. cbn [fst snd] in Hm', He'.
  cbv zeta. rewrite Hm', He'. reflexivity.
Qed.

Lemma Zdigits2_pos z : 0 < z -> Zdigits2 z = Z.log2 z + 1.
Proof. destruct z as [|p|p]; try lia. intros _. apply Zdigits2_log2. Qed.

Lemma log2_div_pow2 m n :
  0 < m -> 0 <= n <= Z.log2 m ->
  0 < m / 2 ^ n /\ Z.log2 (m / 2 ^ n) = Z.log2 m - n.
Proof.
  intros Hm Hn. rewrite <- Z.shiftr_div_pow2 by lia.
  assert (Hl : Z.log2 (Z.shiftr m n) = Z.log2 m - n)
    by (rewrite Z.log2_shiftr by lia; lia).
  split; [|exact Hl].
  rewrite Z.shiftr_div_pow2 by lia.
  apply Z.div_str_pos. split; [apply Z.pow_pos_nonneg; lia|].
  apply Z.log2_le_pow2; lia.
Qed.

Lemma div_pow2_small m n : 0 < m -> Z.log2 m < n -> m / 2 ^ n = 0.
Proof.
  intros Hm Hn. apply Z.div_small. split; [lia|].
  apply Z.log2_lt_pow2; lia.
Qed.

Lemma log2_succ_range m :
  0 < m -> Z.log2 m <= Z.log2 (m + 1) <= Z.log2 m + 1.
Proof.
  intros Hm. split.
  - apply Z.log2_le_mono. lia.
  - pose proof (Z.log2_succ_le m). unfold Z.succ in *. lia.
Qed.

(** A mantissa of [k+1] binary digits plus one either keeps its number
    of digits or is the next power of two. *)
Lemma log2_succ_cases m k :
  0 < m -> Z.log2 m = k ->
  Z.log2 (m + 1) = k \/ m + 1 = 2 ^ (k + 1).
Proof.
  intros Hm Hk. assert (0 <= k) by (subst; apply Z.log2_nonneg).
  destruct (Z.log2_spec m Hm) as [Hlo Hhi]. rewrite Hk in *.
  unfold Z.succ in Hhi.
  destruct (Z.eq_dec (m + 1) (2 ^ (k + 1))) as [E|E]; [now right|left].
  apply Z.log2_unique; [lia|]. unfold Z.succ. lia.
Qed.

Lemma bounded_intro m e :
  Z.max (Z.log2 (Zpos m) + 1 + e - 53) (- 1074) = e -> e <= 971 ->
  bounded F64.prec F64.emax m e = true.
Proof.
  intros Hc He. unfold bounded, canonical_mantissa.
  rewrite Zpos_digits2_log2, fexp_eq, Hc, Z.eqb_refl. cbn [andb].
  apply Z.leb_le. exact He.
Qed.

Lemma bounded_inv m e :
  bounded F64.prec F64.emax m e = true ->
  Z.max (Z.log2 (Zpos m) + 1 + e - 53) (- 1074) = e /\ e <= 971.
Proof.
  unfold bounded, canonical_mantissa. rewrite Zpos_digits2_log2, fexp_eq.
  intros H. apply andb_prop in H as [Hc He].
  apply Z.eqb_eq in Hc. apply Z.leb_le in He. split; assumption.
Qed.

(** The last step of [binary_round_aux] when no second shift is needed. *)
Lemma round_result_no_shift s m2 e1 :
  0 < m2 -> Z.max (Z.log2 m2 + 1 + e1 - 53) (- 1074) = e1 -> e1 <= 971 ->
  exists m,
    Zpos m = m2 /\
    match m2 / 2 ^ Z.max (fexp F64.prec F64.emax (Zdigits2 m2 + e1) - e1) 0 with
    | Z0 => S754_zero s
    | Zpos m => if e1 + Z.max (fexp F64.prec F64.emax (Zdigits2 m2 + e1) - e1) 0
                     <=? F64.emax - F64.prec
                then S754_finite s m (e1 + Z.max (fexp F64.prec F64.emax (Zdigits2 m2 + e1) - e1) 0)
                else S754_infinity s
    | Zneg _ => S754_nan
    end = S754_finite s m e1.
Proof.
  intros Hm Hc He. rewrite Zdigits2_pos, fexp_eq by assumption.
  replace (Z.log2 m2 + 1 + e1 - 53) with (Z.log2 m2 + 1 + e1 - 53) in Hc by reflexivity.
  rewrite Hc. replace (e1 - e1) with 0 by lia. cbn [Z.max Z.compare].
  change (2 ^ 0) with 1. rewrite Z.div_1_r, Z.add_0_r.
  destruct m2 as [|m|m]; try lia. exists m. split; [reflexivity|].
  destruct (Z.leb_spec e1 (F64.emax - F64.prec)) as [_|H]; [reflexivity|].
  unfold F64.emax, F64.prec in H. lia.
Qed.

(** The last step when the rounded mantissa is [2^53]. *)
Lemma round_result_carry s e1 :
  - 1074 <= e1 <= 970 ->
  match 2 ^ 53 / 2 ^ Z.max (fexp F64.prec F64.emax (Zdigits2 (2 ^ 53) + e1) - e1) 0 with
  | Z0 => S754_zero s
  | Zpos m => if e1 + Z.max (fexp F64.prec F64.emax (Zdigits2 (2 ^ 53) + e1) - e1) 0
                   <=? F64.emax - F64.prec
              then S754_finite s m (e1 + Z.max (fexp F64.prec F64.emax (Zdigits2 (2 ^ 53) + e1) - e1) 0)
              else S754_infinity s
  | Zneg _ => S754_nan
  end = S754_finite s (2 ^ 52)%positive (e1 + 1).
Proof.
  intros He. change (Zdigits2 (2 ^ 53)) with 54. rewrite fexp_eq.
  replace (Z.max (Z.max (54 + e1 - 53) (- 1074) - e1) 0) with 1 by lia.
  change (2 ^ 53 / 2 ^ 1) with (Zpos (2 ^ 52)). cbv iota.
  destruct (Z.leb_spec (e1 + 1) (F64.emax - F64.prec)) as [_|H]; [reflexivity|].
  unfold F64.emax, F64.prec in H. lia.
Qed.

(** The binade of a rounded result: rounding keeps the binade of the
    exact magnitude [p * 2^e] or moves it up by one. *)
Lemma binary_round_aux_binade s p e l :
  e <= fexp F64.prec F64.emax (Zdigits2 (Zpos p) + e) ->
  binade p e <= 1022 ->
  match binary_round_aux F64.prec F64.emax s (Zpos p) e l with
  | S754_zero s' => s' = s /\ binade p e < - 1074
  | S754_finite s' m' e' =>
      s' = s /\ bounded F64.prec F64.emax m' e' = true /\
      binade m' e' <= Z.max (binade p e + 1) (- 1074) /\
      (- 1074 <= binade p e -> binade p e <= binade m' e')
  | _ => False
  end.
Proof.
  unfold binade. intros Hal HL.
  pose proof (binary_round_aux_shape s p e l) as Hs. cbv zeta in Hs.
  set (n1 := Z.max (fexp F64.prec F64.emax (Zdigits2 (Zpos p) + e) - e) 0) in *.
  set (e1 := e + n1) in *. set (m1 := Zpos p / 2 ^ n1) in *.
  destruct Hs as (m2 & Hm2 & ->).
  rewrite Zdigits2_log2, fexp_eq in Hal.
  set (L := Z.log2 (Zpos p) + e) in *.
  assert (Hlp : 0 <= Z.log2 (Zpos p)) by apply Z.log2_nonneg.
  destruct (Z_le_gt_dec (- 1022) L) as [Hn|Hs].
  - (* normal range *)
    assert (Hn1 : n1 = Z.log2 (Zpos p) - 52)
      by (subst n1; rewrite Zdigits2_log2, fexp_eq; lia).
    destruct (log2_div_pow2 (Zpos p) n1 ltac:(lia) ltac:(lia)) as [Hpos Hlog].
    fold m1 in Hpos, Hlog.
    assert (Hcase : Z.log2 m2 = 52 /\ 0 < m2 \/ m2 = 2 ^ 53).
    { destruct Hm2 as [->| ->]; [left; lia|].
      destruct (log2_succ_cases m1 52 Hpos ltac:(lia)) as [H|H]; [left; lia|right; exact H]. }
    destruct Hcase as [[Hl2 Hp2]| ->].
    + destruct (round_result_no_shift s m2 e1 Hp2 ltac:(lia) ltac:(lia)) as (m & Hm & ->).
      rewrite Hm, Hl2. split; [reflexivity|]. split; [|lia].
      apply bounded_intro; rewrite ?Hm, ?Hl2; lia.
    + rewrite round_result_carry by lia.
      change (Z.log2 (Zpos (2 ^ 52))) with 52.
      split; [reflexivity|]. split; [|lia].
      apply bounded_intro; change (Z.log2 (Zpos (2 ^ 52))) with 52; lia.
  - (* subnormal range *)
    assert (Hn1 : n1 = - 1074 - e)
      by (subst n1; rewrite Zdigits2_log2, fexp_eq; lia).
    assert (He1 : e1 = - 1074) by lia.
    destruct (Z_lt_le_dec (Z.log2 (Zpos p)) n1) as [Hz|Hnz].
    + assert (Hm1 : m1 = 0) by (apply div_pow2_small; lia).
      rewrite Hm1 in Hm2. destruct Hm2 as [->| ->].
      * rewrite Zdiv_0_l. split; [reflexivity|lia].
      * destruct (round_result_no_shift s (0 + 1) e1 ltac:(lia)
                    ltac:(change (Z.log2 (0 + 1)) with 0; lia) ltac:(lia))
          as (m & Hm & ->).
        rewrite Hm. change (Z.log2 (0 + 1)) with 0. split; [reflexivity|].
        split; [|lia].
        apply bounded_intro; rewrite ?Hm; change (Z.log2 (0 + 1)) with 0; lia.
    + destruct (log2_div_pow2 (Zpos p) n1 ltac:(lia) ltac:(lia)) as [Hpos Hlog].
      fold m1 in Hpos, Hlog.
      assert (H2 : 0 < m2 /\ Z.log2 m1 <= Z.log2 m2 <= Z.log2 m1 + 1).
      { destruct Hm2 as [->| ->]; [lia|].
        pose proof (log2_succ_range m1 Hpos). lia. }
      destruct H2 as [Hp2 Hl2].
      destruct (round_result_no_shift s m2 e1 Hp2 ltac:(lia) ltac:(lia))
        as (m & Hm & ->).
      rewrite Hm. split; [reflexivity|]. split; [|lia].
      apply bounded_intro; rewrite ?Hm; lia.
Qed.

(** A canonical mantissa is left as it is. *)
Lemma binary_round_aux_exact s p e :
  bounded F64.prec F64.emax p e = true ->
  binary_round_aux F64.prec F64.emax s (Zpos p) e loc_Exact = S754_finite s p e.
Proof.
  intros H. apply andb_prop in H as [Hc He].
  unfold canonical_mantissa in Hc. apply Z.eqb_eq in Hc.
  unfold binary_round_aux, shr_fexp. cbn [Zdigits2].
  rewrite Hc, Z.sub_diag. cbn [shr shr_record_of_loc shr_m loc_of_shr_record
    round_nearest_even Zdigits2].
  rewrite Hc, Z.sub_diag. cbn [shr shr_record_of_loc shr_m].
  rewrite He. reflexivity.
Qed.

Lemma Zpos_iter_xO m d : Zpos (Pos.iter xO m d) = Zpos m * 2 ^ Zpos d.
Proof.
  induction d as [|d IH] using Pos.peano_ind.
  - cbn [Pos.iter]. rewrite Pos2Z.inj_xO. change (2 ^ 1) with 2. lia.
  - rewrite Pos.iter_succ, Pos2Z.inj_xO, IH, Pos2Z.inj_succ, Z.pow_succ_r by lia. lia.
Qed.

(** [shl_align] keeps the magnitude and lowers the exponent to the
    requested one when that is smaller. *)
Lemma shl_align_spec mx ex ex' :
  let r := shl_align mx ex ex' in
  snd r = Z.min ex ex' /\ Zpos (fst r) = Zpos mx * 2 ^ (ex - snd r).
Proof.
  unfold shl_align. destruct (ex' - ex) as [|d|d] eqn:E; cbn [fst snd].
  - split; [lia|]. rewrite Z.sub_diag. lia.
  - split; [lia|]. rewrite Z.sub_diag. lia.
  - split; [lia|]. rewrite Zpos_iter_xO. f_equal. f_equal. lia.
Qed.

Lemma log2_mul_pow2 a n : 0 < a -> 0 <= n -> Z.log2 (a * 2 ^ n) = Z.log2 a + n.
Proof. intros Ha Hn. rewrite Z.log2_mul_pow2 by lia. lia. Qed.

Lemma shl_align_binade mx ex ex' :
  binade (fst (shl_align mx ex ex')) (snd (shl_align mx ex ex')) = binade mx ex.
Proof.
  destruct (shl_align_spec mx ex ex') as [He Hm]. unfold binade.
  rewrite Hm, log2_mul_pow2 by lia. lia.
Qed.

(** [binary_round]: the rounding of an arbitrary magnitude [p * 2^e]. *)
Lemma binary_round_binade s p e :
  binade p e <= 1022 ->
  match binary_round F64.prec F64.emax s p e with
  | S754_zero s' => s' = s /\ binade p e < - 1074
  | S754_finite s' m' e' =>
      s' = s /\ bounded F64.prec F64.emax m' e' = true /\
      binade m' e' <= Z.max (binade p e + 1) (- 1074) /\
      (- 1074 <= binade p e -> binade p e <= binade m' e')
  | _ => False
  end.
Proof.
  intros HL. unfold binary_round.
  pose proof (shl_align_binade p e (fexp F64.prec F64.emax (Zpos (digits2_pos p) + e))) as Hb.
  destruct (shl_align_spec p e (fexp F64.prec F64.emax (Zpos (digits2_pos p) + e))) as [He _].
  destruct (shl_align p e _) as [mz ez]. cbn [fst snd] in *.
  rewrite <- Hb. apply binary_round_aux_binade; [|lia].
  rewrite Zdigits2_log2, fexp_eq. rewrite Zpos_digits2_log2, fexp_eq in He.
  unfold binade in Hb. lia.
Qed.

(** Magnitudes that fit in 53 bits are represented exactly. *)
Lemma binary_round_exact s p e :
  Z.log2 (Zpos p) <= 52 -> - 1074 <= e -> binade p e <= 1023 ->
  in_binades s (binade p e) (binade p e) (binary_round F64.prec F64.emax s p e).
Proof.
  intros Hp He HL. unfold binary_round.
  pose proof (shl_align_binade p e (fexp F64.prec F64.emax (Zpos (digits2_pos p) + e))) as Hb.
  destruct (shl_align_spec p e (fexp F64.prec F64.emax (Zpos (digits2_pos p) + e))) as [Hz _].
  destruct (shl_align p e _) as [mz ez]. cbn [fst snd] in *.
  rewrite Zpos_digits2_log2, fexp_eq in Hz. unfold binade in *.
  assert (Hbd : bounded F64.prec F64.emax mz ez = true) by (apply bounded_intro; lia).
  rewrite (binary_round_aux_exact s mz ez Hbd). cbn [in_binades].
  split; [reflexivity|]. split; [exact Hbd|]. unfold binade. lia.
Qed.

(** ** Binades of products *)

Lemma in_binades_below s lo hi x : in_binades s lo hi x -> below_binade hi x.
Proof. destruct x; cbn; intuition lia. Qed.

Lemma below_binade_mono hi hi' x :
  below_binade hi x -> hi <= hi' -> below_binade hi' x.
Proof. destruct x; cbn; intuition lia. Qed.

Lemma in_binades_mono s lo hi lo' hi' x :
  in_binades s lo hi x -> lo' <= lo -> hi <= hi' -> in_binades s lo' hi' x.
Proof.
  destruct x; cbn; intuition lia.
Qed.

(** The exact product of two canonical floats, as [SFmul] rounds it. *)
Lemma mul_finite_binade s mx ex my ey :
  bounded F64.prec F64.emax mx ex = true ->
  bounded F64.prec F64.emax my ey = true ->
  binade mx ex + binade my ey + 1 <= 1022 ->
  match binary_round_aux F64.prec F64.emax s (Zpos (mx * my)) (ex + ey) loc_Exact with
  | S754_zero s' => s' = s /\ binade mx ex + binade my ey < - 1074
  | S754_finite s' m' e' =>
      s' = s /\ bounded F64.prec F64.emax m' e' = true /\
      binade m' e' <= Z.max (binade mx ex + binade my ey + 2) (- 1074) /\
      (- 1074 <= binade mx ex + binade my ey ->
       binade mx ex + binade my ey <= binade m' e')
  | _ => False
  end.
Proof.
  intros Hx Hy HL. apply bounded_inv in Hx as [Hx _], Hy as [Hy _].
  unfold binade in *.
  pose proof (Z.log2_nonneg (Zpos mx)). pose proof (Z.log2_nonneg (Zpos my)).
  pose proof (Z.log2_mul_below (Zpos mx) (Zpos my) ltac:(lia) ltac:(lia)) as Hlo.
  pose proof (Z.log2_mul_above (Zpos mx) (Zpos my) ltac:(lia) ltac:(lia)) as Hhi.
  rewrite <- Pos2Z.inj_mul in Hlo, Hhi.
  pose proof (binary_round_aux_binade s (mx * my) (ex + ey) loc_Exact) as H1.
  rewrite Zdigits2_log2, fexp_eq in H1. unfold binade in H1.
  specialize (H1 ltac:(lia) ltac:(lia)).
  destruct (binary_round_aux _ _ _ _ _ _) as [s'|s'| |s' m' e']; try tauto.
  - destruct H1 as [-> H1]. split; [reflexivity|lia].
  - destruct H1 as (-> & Hb & Hu & Hl). split; [reflexivity|].
    split; [assumption|]. split; lia.
Qed.

Lemma mul_in_binades sx sy lx hx ly hy x y :
  in_binades sx lx hx x -> in_binades sy ly hy y ->
  - 1074 <= lx + ly -> hx + hy + 1 <= 1022 ->
  in_binades (xorb sx sy) (lx + ly) (hx + hy + 2) (F64.mul x y).
Proof.
  destruct x as [| | |sx' mx ex], y as [| | |sy' my ey]; cbn [in_binades]; try tauto.
  intros (-> & Hbx & Hx) (-> & Hby & Hy) Hlo Hhi.
  unfold F64.mul, SFmul.
  pose proof (mul_finite_binade (xorb sx sy) mx ex my ey Hbx Hby ltac:(lia)) as H.
  destruct (binary_round_aux _ _ _ _ _ _) as [s'|s'| |s' m' e']; try tauto.
  - lia.
  - destruct H as (-> & Hb & Hu & Hl). cbn [in_binades].
    split; [reflexivity|]. split; [assumption|lia].
Qed.

Lemma mul_below_binade hx hy x y :
  below_binade hx x -> below_binade hy y ->
  hx + hy + 1 <= 1022 -> - 1074 <= hx + hy + 2 ->
  below_binade (hx + hy + 2) (F64.mul x y).
Proof.
  destruct x as [sx| | |sx mx ex], y as [sy| | |sy my ey]; cbn [below_binade];
    try tauto; try (intros; exact I).
  intros [Hbx Hx] [Hby Hy] Hhi Hlo.
  unfold F64.mul, SFmul.
  pose proof (mul_finite_binade (xorb sx sy) mx ex my ey Hbx Hby ltac:(lia)) as H.
  destruct (binary_round_aux _ _ _ _ _ _) as [s'|s'| |s' m' e']; try tauto.
  - exact I.
  - destruct H as (-> & Hb & Hu & Hl). cbn [below_binade].
    split; [assumption|lia].
Qed.

(** ** Binades of sums *)

Lemma shl_align_min mx ex ez :
  ez <= ex -> Zpos (fst (shl_align mx ex ez)) = Zpos mx * 2 ^ (ex - ez).
Proof.
  intros Hle. destruct (shl_align_spec mx ex ez) as [He Hm].
  rewrite Hm, He. f_equal. f_equal. lia.
Qed.

Lemma aligned_lt mx ex ez h :
  ez <= ex -> binade mx ex <= h -> Zpos mx * 2 ^ (ex - ez) < 2 ^ (h + 1 - ez).
Proof.
  unfold binade. intros Hle Hb.
  pose proof (Z.log2_nonneg (Zpos mx)) as Hl.
  destruct (Z.log2_spec (Zpos mx) ltac:(lia)) as [_ Hhi]. unfold Z.succ in Hhi.
  assert (Hp : 0 < 2 ^ (ex - ez)) by (apply Z.pow_pos_nonneg; lia).
  apply Z.lt_le_trans with (2 ^ (Z.log2 (Zpos mx) + 1) * 2 ^ (ex - ez)).
  - apply Z.mul_lt_mono_pos_r; assumption.
  - rewrite <- Z.pow_add_r by lia. apply Z.pow_le_mono_r; lia.
Qed.

Lemma aligned_ge mx ex ez l :
  ez <= ex -> l <= binade mx ex -> ez <= l -> 2 ^ (l - ez) <= Zpos mx * 2 ^ (ex - ez).
Proof.
  unfold binade. intros Hle Hb Hl.
  pose proof (Z.log2_nonneg (Zpos mx)) as Hn.
  destruct (Z.log2_spec (Zpos mx) ltac:(lia)) as [Hlo _].
  assert (Hp : 0 < 2 ^ (ex - ez)) by (apply Z.pow_pos_nonneg; lia).
  apply Z.le_trans with (2 ^ Z.log2 (Zpos mx) * 2 ^ (ex - ez)).
  - rewrite <- Z.pow_add_r by lia. apply Z.pow_le_mono_r; lia.
  - apply Z.mul_le_mono_nonneg_r; lia.
Qed.

(** [binary_normalize] of a signed mantissa below [2^(h - e + 1)]. *)
Lemma binary_normalize_below M e h :
  Z.abs M < 2 ^ (h - e + 1) -> e <= h + 1 -> h <= 1022 -> - 1074 <= h + 1 ->
  below_binade (h + 1) (binary_normalize F64.prec F64.emax M e false).
Proof.
  intros HM He Hh Hl.
  assert (Hp : forall s p, Zpos p < 2 ^ (h - e + 1) ->
            below_binade (h + 1) (binary_round F64.prec F64.emax s p e)).
  { intros s p Hlt.
    assert (Hb : binade p e <= h).
    { unfold binade. apply Z.log2_lt_pow2 in Hlt; lia. }
    pose proof (binary_round_binade s p e ltac:(lia)) as H.
    destruct (binary_round _ _ _ _ _) as [s'|s'| |s' m' e']; cbn [below_binade]; try tauto.
    destruct H as (_ & Hbd & Hu & _). split; [assumption|lia]. }
  destruct M as [|p|p]; cbn [binary_normalize].
  - exact I.
  - apply Hp. lia.
  - apply Hp. lia.
Qed.

Lemma add_below_binade hx hy x y :
  below_binade hx x -> below_binade hy y ->
  Z.max hx hy + 1 <= 1022 -> - 1074 <= Z.max hx hy + 2 ->
  below_binade (Z.max hx hy + 2) (F64.add x y).
Proof.
  destruct x as [sx| | |sx mx ex], y as [sy| | |sy my ey]; cbn [below_binade];
    try tauto; intros Hx Hy Hhi Hlo; unfold F64.add; cbn [SFadd].
  - destruct sx, sy; exact I.
  - cbn [below_binade]. split; [tauto|lia].
  - cbn [below_binade]. split; [tauto|lia].
  - destruct Hx as [Hbx Hx], Hy as [Hby Hy].
    set (ez := Z.min ex ey).
    rewrite (shl_align_min mx ex ez), (shl_align_min my ey ez) by lia.
    pose proof (aligned_lt mx ex ez (Z.max hx hy) ltac:(lia) ltac:(lia)) as HA.
    pose proof (aligned_lt my ey ez (Z.max hx hy) ltac:(lia) ltac:(lia)) as HB.
    assert (Hez : ez <= Z.max hx hy).
    { unfold binade in Hx. pose proof (Z.log2_nonneg (Zpos mx)). lia. }
    replace (Z.max hx hy + 2) with (Z.max hx hy + 1 + 1) by lia.
    apply binary_normalize_below; try lia.
    replace (Z.max hx hy + 1 - ez + 1) with (Z.succ (Z.max hx hy + 1 - ez)) by lia.
    rewrite Z.pow_succ_r by lia.
    destruct sx, sy; cbn [cond_Zopp]; lia.
Qed.

Lemma of_Z_1 : F64.of_Z 1 = S754_finite false (2 ^ 52) (- 52).
Proof. reflexivity. Qed.

(** Adding a float of magnitude below one half to [1.0] stays in
    [[0.5, 4)]. *)
Lemma add_one_binade v :
  below_binade (- 2) v -> in_binades false (- 1) 1 (F64.add (F64.of_Z 1) v).
Proof.
  rewrite of_Z_1. destruct v as [sv| | |sv mv ev]; cbn [below_binade]; try tauto.
  - intros _. unfold F64.add. cbn [SFadd]. cbn. intuition lia.
  - intros [Hb Hv]. unfold F64.add. cbn [SFadd].
    apply bounded_inv in Hb as [Hc _].
    pose proof (Z.log2_nonneg (Zpos mv)) as Hl.
    set (ez := Z.min (- 52) ev).
    rewrite (shl_align_min (2 ^ 52) (- 52) ez), (shl_align_min mv ev ez) by lia.
    pose proof (aligned_lt mv ev ez (- 2) ltac:(lia) Hv) as HB.
    replace (- 2 + 1 - ez) with (- ez - 1) in HB by lia.
    change (Zpos (2 ^ 52)) with (2 ^ 52).
    rewrite <- Z.pow_add_r by lia. replace (52 + (- 52 - ez)) with (- ez) by lia.
    assert (HA : 2 ^ (- ez) = 2 * 2 ^ (- ez - 1)).
    { replace (- ez) with (Z.succ (- ez - 1)) at 1 by lia. apply Z.pow_succ_r. lia. }
    assert (Hp : 0 < 2 ^ (- ez - 1)) by (apply Z.pow_pos_nonneg; lia).
    assert (HB' : 0 < Zpos mv * 2 ^ (ev - ez)) by (apply Z.mul_pos_pos; [lia|apply Z.pow_pos_nonneg; lia]).
    set (B := Zpos mv * 2 ^ (ev - ez)) in *.
    set (M := 2 ^ (- ez) + cond_Zopp sv B).
    assert (HM : 2 ^ (- ez - 1) <= M < 2 ^ (- ez + 1)).
    { replace (- ez + 1) with (Z.succ (- ez)) by lia. rewrite Z.pow_succ_r by lia.
      subst M. destruct sv; cbn [cond_Zopp]; lia. }
    cbn [cond_Zopp]. fold M.
    destruct M as [|pM|pM]; try lia. cbn [binary_normalize].
    assert (HbM : - 1 <= binade pM ez <= 0).
    { unfold binade. destruct HM as [HM1 HM2].
      apply Z.log2_le_pow2 in HM1; [|lia]. apply Z.log2_lt_pow2 in HM2; lia. }
    pose proof (binary_round_binade false pM ez ltac:(lia)) as H.
    destruct (binary_round _ _ _ _ _) as [s'|s'| |s' m' e']; cbn [in_binades]; try tauto.
    + lia.
    + destruct H as (-> & Hbd & Hu & Hlo). split; [reflexivity|].
      split; [assumption|lia].
Qed.

Lemma in_binadesb_true s lo hi x :
  in_binadesb s lo hi x = true -> in_binades s lo hi x.
Proof.
  destruct x as [| | |s' m e]; cbn [in_binadesb in_binades]; try discriminate.
  intros H. apply andb_prop in H as [H Hhi]. apply andb_prop in H as [H Hlo].
  apply andb_prop in H as [Hs Hb]. apply Bool.eqb_prop in Hs.
  apply Z.leb_le in Hlo, Hhi. auto.
Qed.

(** ** The random draws as floats *)

Lemma random_value_below k :
  below_binade (- 1) (F64.ldexp (k mod 2 ^ 53) (- 53)).
Proof.
  pose proof (Z.mod_pos_bound k (2 ^ 53) ltac:(lia)) as Hk.
  unfold F64.ldexp. destruct (k mod 2 ^ 53) as [|p|p]; try lia.
  - exact I.
  - cbn [binary_normalize].
    assert (Hl : Z.log2 (Zpos p) < 53) by (apply Z.log2_lt_pow2; lia).
    pose proof (Z.log2_nonneg (Zpos p)).
    apply in_binades_below with (s := false) (lo := binade p (- 53)).
    eapply in_binades_mono; [apply binary_round_exact|..]; unfold binade; lia.
Qed.

(** The variation [uniform(-0.02, 0.02)] has a magnitude below one half. *)
Lemma uniform_variation_below k :
  below_binade (- 2)
    (F64.add (F64.opp (F64.dec 2 2))
       (F64.mul (F64.sub (F64.dec 2 2) (F64.opp (F64.dec 2 2)))
          (F64.ldexp (k mod 2 ^ 53) (- 53)))).
Proof.
  assert (Ha : below_binade (- 6) (F64.opp (F64.dec 2 2))).
  { apply in_binades_below with (s := true) (lo := - 6).
    apply in_binadesb_true. vm_compute. reflexivity. }
  assert (Hc : below_binade (- 5) (F64.sub (F64.dec 2 2) (F64.opp (F64.dec 2 2)))).
  { apply in_binades_below with (s := false) (lo := - 5).
    apply in_binadesb_true. vm_compute. reflexivity. }
  pose proof (mul_below_binade (- 5) (- 1) _ _ Hc (random_value_below k)
                ltac:(lia) ltac:(lia)) as Ht.
  pose proof (add_below_binade (- 6) (- 5 + - 1 + 2) _ _ Ha Ht ltac:(lia) ltac:(lia)) as Hv.
  exact Hv.
Qed.

(** ** Magnitudes of rounded results *)

Lemma le_scaled_at k a ea b eb :
  k <= ea -> k <= eb ->
  (le_scaled a ea b eb <-> a * 2 ^ (ea - k) <= b * 2 ^ (eb - k)).
Proof.
  intros Ha Hb. unfold le_scaled. set (mn := Z.min ea eb).
  assert (Hq : 0 < 2 ^ (mn - k)) by (apply Z.pow_pos_nonneg; lia).
  replace (ea - k) with ((ea - mn) + (mn - k)) by lia.
  replace (eb - k) with ((eb - mn) + (mn - k)) by lia.
  rewrite !Z.pow_add_r by lia. rewrite !Z.mul_assoc.
  split; intros H.
  - apply Z.mul_le_mono_nonneg_r; lia.
  - apply Z.mul_le_mono_pos_r in H; assumption.
Qed.

Lemma shr_1_exact m :
  0 <= m ->
  shr_1 {| shr_m := 2 * m; shr_r := false; shr_s := false |}
    = {| shr_m := m; shr_r := false; shr_s := false |}.
Proof. destruct m as [|q|q]; [reflexivity|reflexivity|lia]. Qed.

Lemma iter_shr_1_exact p m :
  0 <= m ->
  iter_pos shr_1 p {| shr_m := 2 ^ Zpos p * m; shr_r := false; shr_s := false |}
    = {| shr_m := m; shr_r := false; shr_s := false |}.
Proof.
  revert m. induction p as [p IH|p IH|]; intros m Hm; cbn [iter_pos].
  - assert (Hp : 0 < 2 ^ Zpos p) by (apply Z.pow_pos_nonneg; lia).
    replace (2 ^ Zpos p~1 * m) with (2 * (2 ^ Zpos p * (2 ^ Zpos p * m))).
    + rewrite shr_1_exact by nia. rewrite IH by nia. apply IH. exact Hm.
    + replace (Zpos p~1) with (1 + Zpos p + Zpos p) by lia.
      rewrite !Z.pow_add_r by lia. change (2 ^ 1) with 2. ring.
  - assert (Hp : 0 < 2 ^ Zpos p) by (apply Z.pow_pos_nonneg; lia).
    replace (2 ^ Zpos p~0 * m) with (2 ^ Zpos p * (2 ^ Zpos p * m)).
    + rewrite IH by nia. apply IH. exact Hm.
    + replace (Zpos p~0) with (Zpos p + Zpos p) by lia.
      rewrite !Z.pow_add_r by lia. ring.
  - change (2 ^ 1) with 2. apply shr_1_exact. exact Hm.
Qed.

(** Shifting an exact mantissa by [n] places loses nothing when the
    mantissa is a multiple of [2^n]. *)
Lemma shr_exact m e n :
  0 <= m -> m mod 2 ^ Z.max n 0 = 0 ->
  fst (shr (shr_record_of_loc m loc_Exact) e n)
    = {| shr_m := m / 2 ^ Z.max n 0; shr_r := false; shr_s := false |}.
Proof.
  intros Hm Hd. destruct n as [|p|p]; cbn [shr fst shr_record_of_loc].
  - change (Z.max 0 0) with 0. rewrite Z.div_1_r. reflexivity.
  - assert (Z.max (Zpos p) 0 = Zpos p) as E by lia. rewrite E in *.
    assert (Hp : 0 < 2 ^ Zpos p) by (apply Z.pow_pos_nonneg; lia).
    pose proof (Z.div_mod m (2 ^ Zpos p) ltac:(lia)) as Hdm. rewrite Hd in Hdm.
    rewrite Hdm at 1. rewrite Z.add_0_r. apply iter_shr_1_exact.
    apply Z.div_pos; lia.
  - assert (Z.max (Zneg p) 0 = 0) as -> by lia. rewrite Z.div_1_r. reflexivity.
Qed.

(** The shape of [binary_round_aux] on an exact magnitude: the mantissa
    is rounded up only when the first shift drops a non-zero digit. *)
Lemma binary_round_aux_shape_exact s p e :
  let n1 := Z.max (fexp F64.prec F64.emax (Zdigits2 (Zpos p) + e) - e) 0 in
  let m1 := Zpos p / 2 ^ n1 in
  let e1 := e + n1 in
  exists m2,
    (m2 = m1 \/ m2 = m1 + 1 /\ Zpos p mod 2 ^ n1 <> 0) /\
    let n2 := Z.max (fexp F64.prec F64.emax (Zdigits2 m2 + e1) - e1) 0 in
    binary_round_aux F64.prec F64.emax s (Zpos p) e loc_Exact =
      match m2 / 2 ^ n2 with
      | Z0 => S754_zero s
      | Zpos m => if e1 + n2 <=? F64.emax - F64.prec
                  then S754_finite s m (e1 + n2) else S754_infinity s
      | Zneg _ => S754_nan
      end.
Proof.
  intros n1 m1 e1. unfold binary_round_aux, shr_fexp.
  pose proof (shr_spec (Zpos p) loc_Exact e
                (fexp F64.prec F64.emax (Zdigits2 (Zpos p) + e) - e) ltac:(lia)) as [Hm He].
  pose proof (shr_exact (Zpos p) e
                (fexp F64.prec F64.emax (Zdigits2 (Zpos p) + e) - e) ltac:(lia)) as Hex.
  destruct (shr _ e _) as [mrs e'] eqn:E1. cbn [fst snd] in Hm, He, Hex.
  fold n1 in Hm, He, Hex. fold m1 in Hm, Hex. fold e1 in He. subst e'.
  set (m2 := round_nearest_even (shr_m mrs) (loc_of_shr_record mrs)).
  exists m2. split.
  { destruct (Z.eq_dec (Zpos p mod 2 ^ n1) 0) as [Hz|Hnz].
    - left. subst m2. rewrite (Hex Hz). reflexivity.
    - subst m2. rewrite <- Hm.
      destruct (round_nearest_even_range (shr_m mrs) (loc_of_shr_record mrs)) as [->| ->];
        [left; reflexivity|right; split; [reflexivity|exact Hnz]]. }
  assert (H0 : 0 <= m2).
  { assert (0 <= m1) by (apply Z.div_pos; lia).
    subst m2. destruct (round_nearest_even_range (shr_m mrs) (loc_of_shr_record mrs)) as [->| ->]; lia. }
  pose proof (shr_spec m2 loc_Exact e1
                (fexp F64.prec F64.emax (Zdigits2 m2 + e1) - e1) H0) as [Hm' He'].
  destruct (shr _ e1 _) as [mrs' e''] eqn:E2. cbn [fst snd] in Hm', He'.
  cbv zeta. rewrite Hm', He'. reflexivity.
Qed.

(** The value of the rounded result is the rounded mantissa at the
    exponent of the first shift. *)
Lemma binary_round_aux_value s p e :
  e <= fexp F64.prec F64.emax (Zdigits2 (Zpos p) + e) ->
  binade p e <= 1022 ->
  let n1 := Z.max (fexp F64.prec F64.emax (Zdigits2 (Zpos p) + e) - e) 0 in
  let m1 := Zpos p / 2 ^ n1 in
  let e1 := e + n1 in
  exists m2,
    (m2 = m1 \/ m2 = m1 + 1 /\ Zpos p mod 2 ^ n1 <> 0) /\
    match binary_round_aux F64.prec F64.emax s (Zpos p) e loc_Exact with
    | S754_zero _ => m2 = 0
    | S754_finite _ m' e' => e1 <= e' /\ Zpos m' * 2 ^ (e' - e1) = m2
    | _ => False
    end.
Proof.
  unfold binade. intros Hal HL.
  pose proof (binary_round_aux_shape_exact s p e) as Hs. cbv zeta in Hs |- *.
  set (n1 := Z.max (fexp F64.prec F64.emax (Zdigits2 (Zpos p) + e) - e) 0) in *.
  set (e1 := e + n1) in *. set (m1 := Zpos p / 2 ^ n1) in *.
  destruct Hs as (m2 & Hm2 & ->). exists m2. split; [exact Hm2|].
  assert (Hm2' : m2 = m1 \/ m2 = m1 + 1) by tauto. clear Hm2.
  rewrite Zdigits2_log2, fexp_eq in Hal.
  set (L := Z.log2 (Zpos p) + e) in *.
  assert (Hlp : 0 <= Z.log2 (Zpos p)) by apply Z.log2_nonneg.
  destruct (Z_le_gt_dec (- 1022) L) as [Hn|Hs].
  - assert (Hn1 : n1 = Z.log2 (Zpos p) - 52)
      by (subst n1; rewrite Zdigits2_log2, fexp_eq; lia).
    destruct (log2_div_pow2 (Zpos p) n1 ltac:(lia) ltac:(lia)) as [Hpos Hlog].
    fold m1 in Hpos, Hlog.
    assert (Hcase : Z.log2 m2 = 52 /\ 0 < m2 \/ m2 = 2 ^ 53).
    { destruct Hm2' as [->| ->]; [left; lia|].
      destruct (log2_succ_cases m1 52 Hpos ltac:(lia)) as [H|H]; [left; lia|right; exact H]. }
    destruct Hcase as [[Hl2 Hp2]| ->].
    + destruct (round_result_no_shift s m2 e1 Hp2 ltac:(lia) ltac:(lia)) as (m & Hm & ->).
      split; [lia|]. rewrite Z.sub_diag. lia.
    + rewrite round_result_carry by lia. split; [lia|].
      replace (e1 + 1 - e1) with 1 by lia. reflexivity.
  - assert (Hn1 : n1 = - 1074 - e)
      by (subst n1; rewrite Zdigits2_log2, fexp_eq; lia).
    assert (He1 : e1 = - 1074) by lia.
    destruct (Z_lt_le_dec (Z.log2 (Zpos p)) n1) as [Hz|Hnz].
    + assert (Hm1 : m1 = 0) by (apply div_pow2_small; lia).
      rewrite Hm1 in Hm2'. destruct Hm2' as [->| ->].
      * rewrite Zdiv_0_l. reflexivity.
      * destruct (round_result_no_shift s (0 + 1) e1 ltac:(lia)
                    ltac:(change (Z.log2 (0 + 1)) with 0; lia) ltac:(lia))
          as (m & Hm & ->).
        split; [lia|]. rewrite Z.sub_diag. lia.
    + destruct (log2_div_pow2 (Zpos p) n1 ltac:(lia) ltac:(lia)) as [Hpos Hlog].
      fold m1 in Hpos, Hlog.
      assert (H2 : 0 < m2 /\ Z.log2 m1 <= Z.log2 m2 <= Z.log2 m1 + 1).
      { destruct Hm2' as [->| ->]; [lia|].
        pose proof (log2_succ_range m1 Hpos). lia. }
      destruct H2 as [Hp2 Hl2].
      destruct (round_result_no_shift s m2 e1 Hp2 ltac:(lia) ltac:(lia))
        as (m & Hm & ->).
      split; [lia|]. rewrite Z.sub_diag. lia.
Qed.

(** Rounding to nearest never crosses a representable number: an exact
    magnitude of at most [mY * 2^eY], a canonical float, rounds to at
    most that float. *)
Lemma binary_round_aux_le s p e mY eY :
  e <= fexp F64.prec F64.emax (Zdigits2 (Zpos p) + e) ->
  binade p e <= 1022 ->
  bounded F64.prec F64.emax mY eY = true ->
  le_scaled (Zpos p) e (Zpos mY) eY ->
  mag_le (binary_round_aux F64.prec F64.emax s (Zpos p) e loc_Exact) mY eY.
Proof.
  intros Hal HL HbY Hle.
  pose proof (binary_round_aux_binade s p e loc_Exact Hal HL) as Hbin.
  pose proof (binary_round_aux_value s p e Hal HL) as Hval. cbv zeta in Hval.
  set (n1 := Z.max (fexp F64.prec F64.emax (Zdigits2 (Zpos p) + e) - e) 0) in *.
  set (e1 := e + n1) in *. set (m1 := Zpos p / 2 ^ n1) in *.
  destruct Hval as (m2 & Hm2 & Hval).
  destruct (binary_round_aux _ _ _ _ _ _) as [s'|s'| |s' m' e']; cbn [mag_le]; try tauto.
  destruct Hbin as (_ & Hbd & _). destruct Hval as [He' Hv].
  split; [exact Hbd|].
  set (k := Z.min e eY).
  assert (Hn1 : 0 <= n1) by (subst n1; lia).
  apply (le_scaled_at k) in Hle; [|lia|lia].
  assert (H2n : 0 < 2 ^ n1) by (apply Z.pow_pos_nonneg; lia).
  assert (H2e : 0 < 2 ^ (e - k)) by (apply Z.pow_pos_nonneg; lia).
  pose proof (Z.div_mod (Zpos p) (2 ^ n1) ltac:(lia)) as Hdm. fold m1 in Hdm.
  pose proof (Z.mod_pos_bound (Zpos p) (2 ^ n1) H2n) as Hmod.
  assert (Hm1 : 0 <= m1) by (apply Z.div_pos; lia).
  (* the result at scale [k] is [m2 * 2^(e1 - k)] *)
  apply (le_scaled_at k); [lia|lia|].
  replace (e' - k) with ((e' - e1) + (e1 - k)) by lia.
  rewrite Z.pow_add_r by lia. rewrite Z.mul_assoc, Hv.
  assert (He1k : 2 ^ (e1 - k) = 2 ^ n1 * 2 ^ (e - k)).
  { unfold e1. replace (e + n1 - k) with (n1 + (e - k)) by lia.
    apply Z.pow_add_r; lia. }
  destruct Hm2 as [->|[-> Hnz]].
  - rewrite He1k. apply Z.le_trans with (Zpos p * 2 ^ (e - k)); [|exact Hle].
    rewrite Z.mul_assoc. apply Z.mul_le_mono_nonneg_r; lia.
  - (* rounded up: the bound lies on the grid of the result *)
    assert (Hpos : 0 < n1).
    { destruct (Z.eq_dec n1 0) as [E|E]; [|lia].
      rewrite E in Hnz. change (2 ^ 0) with 1 in Hnz. rewrite Z.mod_1_r in Hnz. tauto. }
    apply bounded_inv in HbY as [HcY _].
    assert (Hlog : Z.log2 (Zpos p) + (e - k) <= Z.log2 (Zpos mY) + (eY - k)).
    { rewrite <- !log2_mul_pow2 by lia. apply Z.log2_le_mono. exact Hle. }
    assert (HeY : e1 <= eY).
    { unfold e1. subst n1. rewrite Zdigits2_log2, fexp_eq in *. lia. }
    assert (HY : Zpos mY * 2 ^ (eY - k) = Zpos mY * 2 ^ (eY - e1) * 2 ^ (e1 - k)).
    { rewrite <- Z.mul_assoc, <- Z.pow_add_r by lia. do 2 f_equal. lia. }
    rewrite HY. apply Z.mul_le_mono_nonneg_r; [apply Z.pow_nonneg; lia|].
    assert (Hlt : m1 * 2 ^ (e1 - k) < Zpos mY * 2 ^ (eY - e1) * 2 ^ (e1 - k)).
    { rewrite <- HY. apply Z.lt_le_trans with (Zpos p * 2 ^ (e - k)); [|exact Hle].
      rewrite He1k, Z.mul_assoc. apply Z.mul_lt_mono_pos_r; lia. }
    apply Z.mul_lt_mono_pos_r in Hlt; [lia|].
    apply Z.pow_pos_nonneg; lia.
Qed.

Lemma le_scaled_binade a ea b eb :
  0 < a -> 0 < b -> le_scaled a ea b eb -> Z.log2 a + ea <= Z.log2 b + eb.
Proof.
  unfold le_scaled. intros Ha Hb H. apply Z.log2_le_mono in H.
  rewrite !log2_mul_pow2 in H by lia. lia.
Qed.

Lemma binary_round_le s p e mY eY :
  binade mY eY <= 1022 ->
  bounded F64.prec F64.emax mY eY = true ->
  le_scaled (Zpos p) e (Zpos mY) eY ->
  match binary_round F64.prec F64.emax s p e with
  | S754_finite s' _ _ => s' = s
  | _ => True
  end /\
  mag_le (binary_round F64.prec F64.emax s p e) mY eY.
Proof.
  intros HY HbY Hle.
  assert (HL : binade p e <= 1022).
  { unfold binade in *. apply le_scaled_binade in Hle; lia. }
  split.
  { pose proof (binary_round_binade s p e HL) as H.
    destruct (binary_round _ _ _ _ _); tauto. }
  unfold binary_round.
  pose proof (shl_align_binade p e (fexp F64.prec F64.emax (Zpos (digits2_pos p) + e))) as Hb.
  destruct (shl_align_spec p e (fexp F64.prec F64.emax (Zpos (digits2_pos p) + e))) as [He Hm].
  destruct (shl_align p e _) as [mz ez]. cbn [fst snd] in *.
  apply binary_round_aux_le; [| |exact HbY|].
  - rewrite Zdigits2_log2, fexp_eq. rewrite Zpos_digits2_log2, fexp_eq in He.
    unfold binade in Hb. lia.
  - rewrite Hb. exact HL.
  - set (k := Z.min ez eY). apply (le_scaled_at k); [lia|lia|].
    apply (le_scaled_at k) in Hle; [|lia|lia].
    rewrite Hm, <- Z.mul_assoc, <- Z.pow_add_r by lia.
    replace (e - ez + (ez - k)) with (e - k) by lia. exact Hle.
Qed.

(** The comparison of two canonical floats of the same sign follows
    their magnitudes. *)
Lemma leb_of_le_scaled m e mY eY :
  bounded F64.prec F64.emax m e = true ->
  bounded F64.prec F64.emax mY eY = true ->
  le_scaled (Zpos m) e (Zpos mY) eY ->
  F64.leb (S754_finite false m e) (S754_finite false mY eY) = true /\
  F64.leb (S754_finite true mY eY) (S754_finite true m e) = true.
Proof.
  intros Hb HbY Hle.
  pose proof (le_scaled_binade (Zpos m) e (Zpos mY) eY ltac:(lia) ltac:(lia) Hle) as Hlog.
  apply bounded_inv in Hb as [Hc _], HbY as [HcY _].
  unfold F64.leb, SFleb, SFcompare.
  rewrite (Z.compare_antisym e eY).
  destruct (Z.compare_spec e eY) as [E|E|E]; cbn [CompOpp].
  - subst eY. unfold le_scaled in Hle. rewrite Z.min_id, Z.sub_diag in Hle.
    change (2 ^ 0) with 1 in Hle. rewrite !Z.mul_1_r in Hle.
    change (Pos.compare_cont Eq m mY) with (Pos.compare m mY).
    change (Pos.compare_cont Eq mY m) with (Pos.compare mY m).
    rewrite (Pos.compare_antisym m mY).
    destruct (Pos.compare_spec m mY) as [E|E|E]; cbn [CompOpp]; try (split; reflexivity).
    lia.
  - split; reflexivity.
  - lia.
Qed.

Lemma mul_aligned mx ex my ey :
  bounded F64.prec F64.emax mx ex = true ->
  bounded F64.prec F64.emax my ey = true ->
  ex + ey <= fexp F64.prec F64.emax (Zdigits2 (Zpos (mx * my)) + (ex + ey)).
Proof.
  intros Hx Hy. apply bounded_inv in Hx as [Hx _], Hy as [Hy _].
  pose proof (Z.log2_nonneg (Zpos mx)). pose proof (Z.log2_nonneg (Zpos my)).
  pose proof (Z.log2_mul_below (Zpos mx) (Zpos my) ltac:(lia) ltac:(lia)) as Hlo.
  rewrite <- Pos2Z.inj_mul in Hlo.
  rewrite Zdigits2_log2, fexp_eq. lia.
Qed.

(** [random()] is [+0.0] or a positive canonical float below one. *)
Lemma random_value_cases k :
  match F64.ldexp (k mod 2 ^ 53) (- 53) with
  | S754_zero _ => True
  | S754_finite s m e =>
      s = false /\ bounded F64.prec F64.emax m e = true /\ binade m e <= - 1
  | _ => False
  end.
Proof.
  pose proof (Z.mod_pos_bound k (2 ^ 53) ltac:(lia)) as Hk.
  unfold F64.ldexp. destruct (k mod 2 ^ 53) as [|p|p]; try lia.
  - exact I.
  - cbn [binary_normalize].
    assert (Hl : Z.log2 (Zpos p) < 53) by (apply Z.log2_lt_pow2; lia).
    pose proof (Z.log2_nonneg (Zpos p)) as Hn.
    pose proof (binary_round_exact false p (- 53) ltac:(lia) ltac:(lia)
                  ltac:(unfold binade; lia)) as H.
    destruct (binary_round _ _ _ _ _) as [| | |s m e]; cbn [in_binades] in H; try tauto.
    destruct H as (-> & Hb & Hr). unfold binade in *. repeat split; [exact Hb|lia].
Qed.

Lemma variation_bound_eq :
  variation_bound = S754_finite false 5764607523034235 (- 58).
Proof. vm_compute. reflexivity. Qed.

Lemma variation_width_eq :
  F64.sub (F64.dec 2 2) (F64.opp (F64.dec 2 2))
    = S754_finite false 5764607523034235 (- 57).
Proof. vm_compute. reflexivity. Qed.

(** The product [(b - a) * random()] of [uniform(-0.02, 0.02)] is at
    most [b - a], the float [0.04]. *)
Lemma uniform_product_le k :
  match F64.mul (F64.sub (F64.dec 2 2) (F64.opp (F64.dec 2 2)))
          (F64.ldexp (k mod 2 ^ 53) (- 53)) with
  | S754_zero _ => True
  | S754_finite s m e =>
      s = false /\ bounded F64.prec F64.emax m e = true /\
      le_scaled (Zpos m) e (Zpos 5764607523034235) (- 57)
  | _ => False
  end.
Proof.
  rewrite variation_width_eq. pose proof (random_value_cases k) as Hu.
  destruct (F64.ldexp _ _) as [su| | |su mu eu]; [exact I|tauto|tauto|].
  destruct Hu as (-> & Hbu & Hu). unfold F64.mul. cbn [SFmul xorb].
  set (mA := 5764607523034235%positive).
  assert (HbA : bounded F64.prec F64.emax mA (- 57) = true) by reflexivity.
  pose proof (mul_aligned mA (- 57) mu eu HbA Hbu) as Hal.
  pose proof (mul_finite_binade false mA (- 57) mu eu HbA Hbu
                ltac:(change (binade mA (- 57)) with (- 5); lia)) as Hbin.
  assert (HL : binade (mA * mu) (- 57 + eu) <= 1022).
  { unfold binade in *. rewrite Pos2Z.inj_mul.
    pose proof (Z.log2_mul_above (Zpos mA) (Zpos mu) ltac:(lia) ltac:(lia)).
    change (Z.log2 (Zpos mA)) with 52 in *. lia. }
  assert (Hle : le_scaled (Zpos (mA * mu)) (- 57 + eu) (Zpos mA) (- 57)).
  { unfold binade in Hu. pose proof (Z.log2_nonneg (Zpos mu)) as Hn.
    apply (le_scaled_at (- 57 + eu)); [lia|lia|].
    rewrite Z.sub_diag. change (2 ^ 0) with 1.
    replace (- 57 - (- 57 + eu)) with (- eu) by lia.
    rewrite Pos2Z.inj_mul, Z.mul_1_r. apply Z.mul_le_mono_nonneg_l; [lia|].
    destruct (Z.log2_spec (Zpos mu) ltac:(lia)) as [_ Hhi]. unfold Z.succ in Hhi.
    apply Z.lt_le_incl. apply Z.lt_le_trans with (2 ^ (Z.log2 (Zpos mu) + 1)); [exact Hhi|].
    apply Z.pow_le_mono_r; lia. }
  pose proof (binary_round_aux_le false (mA * mu) (- 57 + eu) mA (- 57)
                Hal HL HbA Hle) as Hm.
  destruct (binary_round_aux _ _ _ _ _ _) as [s'|s'| |s' m' e']; cbn [mag_le] in Hm; tauto.
Qed.

(** The variation that [uniform(-0.02, 0.02)] computes lies between
    [-0.02] and [0.02], for every draw. *)
Lemma variation_range k :
  F64.leb (F64.opp variation_bound) (variation_of k) = true /\
  F64.leb (variation_of k) variation_bound = true.
Proof.
  unfold variation_of. pose proof (uniform_product_le k) as Ht.
  fold variation_bound. rewrite variation_bound_eq.
  destruct (F64.mul _ _) as [st| | |st mt et]; [split; reflexivity|tauto|tauto|].
  destruct Ht as (-> & Hbt & Hlt).
  set (mA := 5764607523034235%positive) in *.
  assert (HbA : bounded F64.prec F64.emax mA (- 58) = true) by reflexivity.
  unfold F64.add, F64.opp. cbn [SFopp SFadd negb].
  set (ez := Z.min (- 58) et).
  rewrite (shl_align_min mA (- 58) ez), (shl_align_min mt et ez) by lia.
  cbn [cond_Zopp].
  set (A := Zpos mA * 2 ^ (- 58 - ez)). set (T := Zpos mt * 2 ^ (et - ez)).
  assert (HA : 0 < A) by (apply Z.mul_pos_pos; [lia|apply Z.pow_pos_nonneg; lia]).
  assert (HT : 0 < T <= 2 * A).
  { split; [apply Z.mul_pos_pos; [lia|apply Z.pow_pos_nonneg; lia]|].
    apply (le_scaled_at ez) in Hlt; [|lia|lia]. fold T in Hlt.
    replace (- 57 - ez) with (Z.succ (- 58 - ez)) in Hlt by lia.
    rewrite Z.pow_succ_r in Hlt by lia. unfold A. lia. }
  assert (Hmag : forall s p, Zpos p <= A ->
            match binary_round F64.prec F64.emax s p ez with
            | S754_finite s' _ _ => s' = s
            | _ => True
            end /\ mag_le (binary_round F64.prec F64.emax s p ez) mA (- 58)).
  { intros s p Hp. apply binary_round_le; [vm_compute; discriminate|exact HbA|].
    apply (le_scaled_at ez); [lia|lia|].
    rewrite Z.sub_diag. change (2 ^ 0) with 1. rewrite Z.mul_1_r. exact Hp. }
  destruct (- A + T) as [|p|p] eqn:EM; cbn [binary_normalize].
  + split; reflexivity.
  + destruct (Hmag false p ltac:(lia)) as [Hs Hm].
    destruct (binary_round _ _ _ _ _) as [s'|s'| |s' m' e']; cbn [mag_le] in Hm;
      [split; reflexivity|tauto|tauto|].
    subst s'. destruct Hm as [Hb' Hle'].
    split; [reflexivity|].
    exact (proj1 (leb_of_le_scaled m' e' mA (- 58) Hb' HbA Hle')).
  + destruct (Hmag true p ltac:(lia)) as [Hs Hm].
    destruct (binary_round _ _ _ _ _) as [s'|s'| |s' m' e']; cbn [mag_le] in Hm;
      [split; reflexivity|tauto|tauto|].
    subst s'. destruct Hm as [Hb' Hle'].
    split; [|reflexivity].
    exact (proj2 (leb_of_le_scaled m' e' mA (- 58) Hb' HbA Hle')).
Qed.

(** ** Decimal rounding *)

Lemma round_half_even_range num den :
  F64.round_half_even num den = num / den \/
  F64.round_half_even num den = num / den + 1.
Proof.
  unfold F64.round_half_even. destruct (2 * (num mod den) ?= den); auto.
  destruct (Z.even (num / den)); auto.
Qed.

(** A canonical float of a normal binade has a 53-bit mantissa. *)
Lemma bounded_normal m e :
  bounded F64.prec F64.emax m e = true -> - 1022 <= binade m e ->
  Z.log2 (Zpos m) = 52 /\ 2 ^ 52 <= Zpos m < 2 ^ 53.
Proof.
  unfold binade. intros Hb Hn. apply bounded_inv in Hb as [Hc _].
  assert (Hl : Z.log2 (Zpos m) = 52) by lia. split; [exact Hl|].
  destruct (Z.log2_spec (Zpos m) ltac:(lia)) as [Hlo Hhi].
  rewrite Hl in Hlo, Hhi. exact (conj Hlo Hhi).
Qed.

(** The rate before rounding lies in [[2^-9, 2^11)]; scaled by [10^7]
    and rounded it is an integer of at least 15 and at most 35 bits. *)
Lemma scaled_round_bounds m e :
  bounded F64.prec F64.emax m e = true -> - 9 <= binade m e <= 10 ->
  19531 <= F64.scaled_round m e 7 <= 20480000001.
Proof.
  intros Hb Hr. destruct (bounded_normal m e Hb ltac:(lia)) as [Hl Hm].
  unfold binade in Hr. rewrite Hl in Hr.
  unfold F64.scaled_round. destruct (Z.leb_spec 0 e) as [H|_]; [lia|].
  assert (HP : 2 ^ 42 <= 2 ^ (- e) <= 2 ^ 61)
    by (split; apply Z.pow_le_mono_r; lia).
  set (P := 2 ^ (- e)) in *.
  change (10 ^ 7) with 10000000.
  change (2 ^ 42) with 4398046511104 in HP.
  change (2 ^ 61) with 2305843009213693952 in HP.
  change (2 ^ 52) with 4503599627370496 in Hm.
  change (2 ^ 53) with 9007199254740992 in Hm.
  assert (Hq : 19531 <= Zpos m * 10000000 / P <= 20480000000).
  { split.
    - apply Z.div_le_lower_bound; lia.
    - apply Z.div_le_upper_bound; lia. }
  destruct (round_half_even_range (Zpos m * 10000000) P) as [->| ->]; lia.
Qed.

(** The correctly rounded quotient of a positive integer by [10^7]. *)
Lemma div_1e7_binade s n :
  Z.log2 (Zpos n) <= 60 ->
  in_binades s (Z.log2 (Zpos n) - 24) (Z.log2 (Zpos n) - 22)
    (F64.div (S754_finite s n 0) (S754_finite false 10000000 0)).
Proof.
  intros Hn. pose proof (Z.log2_nonneg (Zpos n)) as Hn0.
  unfold F64.div. cbn [SFdiv]. unfold SFdiv_core_binary.
  rewrite Zdigits2_log2. change (Zdigits2 (Zpos 10000000)) with 24.
  rewrite fexp_eq.
  replace (Z.min (Z.max (Z.log2 (Zpos n) + 1 + 0 - (24 + 0) - 53) (- 1074)) (0 - 0))
    with (Z.log2 (Zpos n) - 76) by lia.
  replace (0 - 0 - (Z.log2 (Zpos n) - 76)) with (76 - Z.log2 (Zpos n)) by lia.
  destruct (76 - Z.log2 (Zpos n)) as [|sh|sh] eqn:Esh; try lia.
  rewrite <- Esh. rewrite Z.shiftl_mul_pow2 by lia.
  set (m' := Zpos n * 2 ^ (76 - Z.log2 (Zpos n))).
  assert (Hm' : 2 ^ 76 <= m' < 2 ^ 77).
  { assert (Hl : Z.log2 m' = 76) by (subst m'; rewrite log2_mul_pow2 by lia; lia).
    assert (0 < m') by (subst m'; apply Z.mul_pos_pos; [lia|apply Z.pow_pos_nonneg; lia]).
    destruct (Z.log2_spec m' ltac:(lia)) as [Hlo Hhi]. rewrite Hl in Hlo, Hhi.
    exact (conj Hlo Hhi). }
  assert (Hq : Z.div_eucl m' 10000000 = (m' / 10000000, m' mod 10000000))
    by (unfold Z.div, Z.modulo; destruct (Z.div_eucl m' 10000000); reflexivity).
  rewrite Hq.
  change (2 ^ 76) with 75557863725914323419136 in Hm'.
  change (2 ^ 77) with 151115727451828646838272 in Hm'.
  assert (Hqr : 2 ^ 52 <= m' / 10000000 < 2 ^ 54).
  { split.
    - apply Z.div_le_lower_bound; [lia|]. change (2 ^ 52) with 4503599627370496. lia.
    - apply Z.div_lt_upper_bound; [lia|]. change (2 ^ 54) with 18014398509481984. lia. }
  destruct (m' / 10000000) as [|q|q] eqn:Eq; try lia.
  assert (Hlq : 52 <= Z.log2 (Zpos q) <= 53).
  { destruct Hqr as [H1 H2]. apply Z.log2_le_pow2 in H1; [|lia].
    apply Z.log2_lt_pow2 in H2; lia. }
  pose proof (binary_round_aux_binade (xorb s false) q (Z.log2 (Zpos n) - 76)
                (new_location 10000000 (m' mod 10000000))) as H.
  rewrite Zdigits2_log2, fexp_eq in H. unfold binade in H.
  specialize (H ltac:(lia) ltac:(lia)).
  rewrite xorb_false_r in *.
  destruct (binary_round_aux _ _ _ _ _ _) as [s'|s'| |s' mr er]; cbn [in_binades]; try tauto.
  - lia.
  - destruct H as (-> & Hbd & Hu & Hlo). split; [reflexivity|].
    split; [assumption|]. unfold binade in *. lia.
Qed.

Lemma round_ndigits_rate y :
  in_binades false (- 9) 10 y ->
  in_binades false (- 10) 12 (F64.round_ndigits y 7).
Proof.
  destruct y as [| | |s m e]; cbn [in_binades]; try tauto.
  intros (-> & Hb & Hr). unfold F64.round_ndigits.
  pose proof (scaled_round_bounds m e Hb Hr) as Hn.
  destruct (F64.scaled_round m e 7) as [|n|n]; try lia.
  change (Z.to_pos (10 ^ 7)) with 10000000%positive.
  assert (Hl : 14 <= Z.log2 (Zpos n) <= 34).
  { split.
    - change 14 with (Z.log2 19531). apply Z.log2_le_mono. lia.
    - change 34 with (Z.log2 20480000001). apply Z.log2_le_mono. lia. }
  eapply in_binades_mono; [apply div_1e7_binade|..]; lia.
Qed.

(** ** The rate synthesizer *)

Lemma dict_get_In {V} (d : list (string * V)) k v :
  dict_get d k = Some v -> In v (map snd d).
Proof.
  induction d as [|[k' v'] d IH]; simpl; [discriminate|].
  destruct (String.eqb k k'); [intros H; inversion H; auto|auto].
Qed.

Lemma table_rate_In c : In (table_rate c) (F64.one :: map snd EXCHANGE_RATES).
Proof.
  unfold table_rate, dict_get_default.
  destruct (dict_get EXCHANGE_RATES c) as [v|] eqn:E.
  - right. eapply dict_get_In; eassumption.
  - left. reflexivity.
Qed.

(** Every quotient of two table entries is a positive float of
    [[2^-8, 2^8)], and no entry is zero. *)
Lemma base_rate_binades buy sell :
  F64.is_zero (table_rate buy) = false /\
  in_binades false (- 8) 7 (F64.div (table_rate sell) (table_rate buy)).
Proof.
  set (l := F64.one :: map snd EXCHANGE_RATES).
  assert (H : forallb (fun b => negb (F64.is_zero b) &&
                forallb (fun a => in_binadesb false (- 8) 7 (F64.div a b)) l) l = true)
    by (vm_compute; reflexivity).
  rewrite forallb_forall in H.
  specialize (H _ (table_rate_In buy)). apply andb_prop in H as [Hz H].
  rewrite forallb_forall in H. specialize (H _ (table_rate_In sell)).
  split; [now apply negb_true_iff in Hz|now apply in_binadesb_true].
Qed.

Lemma rate_of_binades buy sell k : in_binades false (- 10) 12 (rate_of buy sell k).
Proof.
  unfold rate_of. apply round_ndigits_rate.
  destruct (base_rate_binades buy sell) as [_ Hbase].
  pose proof (add_one_binade _ (uniform_variation_below k)) as Hw.
  fold (variation_of k) in Hw.
  exact (mul_in_binades false false (- 8) 7 (- 1) 1 _ _ Hbase Hw ltac:(lia) ltac:(lia)).
Qed.

Lemma generate_rate_same c w : generate_rate c c w = Ok (F64.one, w).
Proof. unfold generate_rate. rewrite String.eqb_refl. reflexivity. Qed.

Lemma generate_rate_diff buy sell w :
  buy <> sell ->
  generate_rate buy sell w = Ok (rate_of buy sell (rng w 0%nat), advance w).
Proof.
  intros Hne. unfold generate_rate.
  apply String.eqb_neq in Hne. rewrite Hne.
  fold (table_rate buy). fold (table_rate sell).
  destruct (base_rate_binades buy sell) as [Hz _].
  unfold F64.truediv. rewrite Hz. reflexivity.
Qed.

Lemma generate_rate_binades buy sell w r w' :
  generate_rate buy sell w = Ok (r, w') -> in_binades false (- 10) 12 r.
Proof.
  destruct (String.eqb_spec buy sell) as [->|Hne].
  - rewrite generate_rate_same. intros H. inversion H; subst.
    apply in_binadesb_true. vm_compute. reflexivity.
  - rewrite generate_rate_diff by assumption. intros H. inversion H; subst.
    apply rate_of_binades.
Qed.

(** ** Conversions between amounts and floats *)

Lemma of_Z_amount a :
  1000000 <= a <= 1000000000000 -> in_binades false 19 39 (F64.of_Z a).
Proof.
  intros Ha. unfold F64.of_Z. destruct a as [|p|p]; try lia.
  cbn [binary_normalize].
  assert (Hl : 19 <= Z.log2 (Zpos p) <= 39).
  { split.
    - change 19 with (Z.log2 1000000). apply Z.log2_le_mono. lia.
    - change 39 with (Z.log2 1000000000000). apply Z.log2_le_mono. lia. }
  eapply in_binades_mono; [apply binary_round_exact|..]; unfold binade; lia.
Qed.

Lemma to_int_finite s lo hi x :
  in_binades s lo hi x -> exists t, F64.to_int x = Ok t.
Proof. destruct x; cbn; try tauto. eauto. Qed.

(** [int(x)] and [round(x)] of a finite float differ by at most one. *)
Lemma to_int_round_int x t :
  F64.to_int x = Ok t ->
  exists r, F64.round_int x = Ok r /\ Z.abs (r - t) <= 1.
Proof.
  destruct x as [s|s| |s m e]; cbn [F64.to_int F64.round_int]; try discriminate.
  - intros H. inversion H. exists 0. split; [reflexivity|lia].
  - intros H. inversion H; subst t; clear H. eexists. split; [reflexivity|].
    unfold F64.scaled_round. change (10 ^ 0) with 1. rewrite !Z.mul_1_r.
    destruct (Z.leb_spec 0 e) as [He|He].
    + rewrite Z.shiftl_mul_pow2 by lia. destruct s; cbn [cond_Zopp]; lia.
    + rewrite Z.shiftl_div_pow2 by lia.
      destruct (round_half_even_range (Zpos m) (2 ^ (- e))) as [->| ->];
        destruct s; cbn [cond_Zopp]; lia.
Qed.

(** The product [buy_amount_cents * rate] is finite, so [int] succeeds. *)
Lemma sell_amount_defined buy rate :
  1000000 <= buy <= 1000000000000 -> in_binades false (- 10) 12 rate ->
  exists sell, F64.to_int (F64.mul (F64.of_Z buy) rate) = Ok sell.
Proof.
  intros Hb Hr.
  pose proof (mul_in_binades false false 19 39 (- 10) 12 _ _ (of_Z_amount buy Hb) Hr
                ltac:(lia) ltac:(lia)) as H.
  eapply to_int_finite. exact H.
Qed.

(** ** The assembled record *)

(** What a successful run of [generate_order] computed.  No clock is
    read before [generate_dates], which therefore sees the clock of the
    initial state. *)
Lemma generate_order_inv w rec w' :
  generate_order w = Ok (rec, w') ->
  exists reference fx_order_type market_direction status buy_currency sell_currency
         rate buy_amount_cents sell_amount_cents creation_date execution_date
         value_date liquidity_provider wr wr' wp wp' wa wa' wd wd',
    rec = order_record reference fx_order_type market_direction status
            buy_currency sell_currency rate buy_amount_cents sell_amount_cents
            creation_date execution_date value_date liquidity_provider /\
    In fx_order_type FX_ORDER_TYPES /\
    generate_reference fx_order_type wr = Ok (reference, wr') /\
    In market_direction MARKET_DIRECTIONS /\
    In status STATUSES /\
    generate_currency_pair wp = Ok ((buy_currency, sell_currency), wp') /\
    generate_rate buy_currency sell_currency wp' = Ok (rate, wa) /\
    generate_amount_cents wa = Ok (buy_amount_cents, wa') /\
    F64.to_int (F64.mul (F64.of_Z buy_amount_cents) rate) = Ok sell_amount_cents /\
    generate_dates status wd = Ok ((creation_date, execution_date, value_date), wd') /\
    clock wd = clock w /\
    In liquidity_provider LIQUIDITY_PROVIDERS.
Proof.
  unfold generate_order. intros H.
  apply bind_inv in H as (ot & w1 & Hot & H).
  apply bind_inv in H as (ref & w2 & Href & H).
  apply bind_inv in H as (md & w3 & Hmd & H).
  apply bind_inv in H as (st & w4 & Hst & H).
  apply bind_inv in H as ([bc sc] & w5 & Hpair & H).
  apply bind_inv in H as (rate & w6 & Hrate & H).
  apply bind_inv in H as (buy & w7 & Hbuy & H).
  apply bind_inv in H as (sell & w8 & Hsell & H).
  assert (Hsell' : F64.to_int (F64.mul (F64.of_Z buy) rate) = Ok sell /\ w8 = w7).
  { unfold lift in Hsell. destruct (F64.to_int _); inversion Hsell; auto. }
  destruct Hsell' as [Hsell' ->].
  assert (Hclk : clock w7 = clock w).
  { rewrite (rng_only_generate_amount_cents _ _ _ Hbuy).
    rewrite (rng_only_generate_rate _ _ _ _ _ Hrate).
    rewrite (rng_only_generate_currency_pair _ _ _ Hpair).
    rewrite (rng_only_choices1 _ _ _ _ _ Hst).
    rewrite (rng_only_choice _ _ _ _ Hmd).
    rewrite (rng_only_generate_reference _ _ _ _ Href).
    apply (rng_only_choices1 _ _ _ _ _ Hot). }
  destruct (if String.eqb md "buy" then _ else _) as [[[amt camt] cur] ccur] eqn:Edir.
  apply bind_inv in H as ([[c e] v] & w9 & Hdates & H).
  apply bind_inv in H as (lp & w10 & Hlp & H).
  apply ret_inv in H as [-> ->].
  exists ref, ot, md, st, bc, sc, rate, buy, sell, c, e, v, lp.
  exists w1, w2, w4, w5, w6, w7, w7, w9.
  apply choices1_inv in Hot as [Hot _]. apply choices1_inv in Hst as [Hst _].
  apply choice_inv in Hmd as [Hmd _]. apply choice_inv in Hlp as [Hlp _].
  repeat (split; [first [assumption | reflexivity | idtac]|]); try assumption.
  unfold order_record. rewrite Edir. reflexivity.
Qed.

Lemma generate_rate_total buy sell w :
  exists r w', generate_rate buy sell w = Ok (r, w').
Proof.
  destruct (String.eqb_spec buy sell) as [->|Hne].
  - rewrite generate_rate_same. eauto.
  - rewrite generate_rate_diff by assumption. eauto.
Qed.

(** [generate_order] raises no exception, whatever the random source
    and the clock deliver. *)
Lemma generate_order_total w : exists rec w', generate_order w = Ok (rec, w').
Proof.
  unfold generate_order.
  destruct (choices1_total FX_ORDER_TYPES FX_ORDER_TYPE_WEIGHTS w eq_refl) as [ot Hot].
  rewrite (bind_ok _ _ _ _ _ Hot).
  destruct (generate_reference_total ot (advance w)) as (ref & w2 & Href).
  rewrite (bind_ok _ _ _ _ _ Href).
  rewrite (bind_ok _ _ _ _ _ (choice_run MARKET_DIRECTIONS "buy" w2 ltac:(discriminate))).
  destruct (choices1_total STATUSES STATUS_WEIGHTS (advance w2) eq_refl) as [st Hst].
  rewrite (bind_ok _ _ _ _ _ Hst).
  destruct (generate_currency_pair_total (advance (advance w2))) as ([bc sc] & w5 & Hpair).
  rewrite (bind_ok _ _ _ _ _ Hpair).
  destruct (generate_rate_total bc sc w5) as (rate & w6 & Hrate).
  rewrite (bind_ok _ _ _ _ _ Hrate).
  destruct (generate_amount_cents_total w6) as (buy & w7 & Hbuy).
  rewrite (bind_ok _ _ _ _ _ Hbuy).
  destruct (sell_amount_defined buy rate (generate_amount_cents_bounds _ _ _ Hbuy)
              (generate_rate_binades _ _ _ _ _ Hrate)) as [sell Hsell].
  assert (Hl : lift (F64.to_int (F64.mul (F64.of_Z buy) rate)) w7 = Ok (sell, w7))
    by (unfold lift; rewrite Hsell; reflexivity).
  rewrite (bind_ok _ _ _ _ _ Hl).
  destruct (if String.eqb _ "buy" then _ else _) as [[[amt camt] cur] ccur].
  destruct (generate_dates_total st w7) as ([[c e] v] & w8 & Hdates).
  rewrite (bind_ok _ _ _ _ _ Hdates).
  rewrite (bind_ok _ _ _ _ _ (choice_run LIQUIDITY_PROVIDERS "SIVB" w8 ltac:(discriminate))).
  eexists _, _. reflexivity.
Qed.

(** The fields of an assembled record. *)
Lemma order_record_fields ref ot md st bc sc rate buy sell c e v lp :
  let rec := order_record ref ot md st bc sc rate buy sell c e v lp in
  get_str rec "reference" = Some ref /\
  get_str rec "fx_order_type" = Some ot /\
  get_str rec "status" = Some st /\
  get_str rec "buy_currency" = Some bc /\
  get_str rec "sell_currency" = Some sc /\
  get_float rec "rate" = Some rate /\
  get_int rec "buy_amount_cents" = Some buy /\
  get_int rec "sell_amount_cents" = Some sell /\
  get_date rec "creation_date" = Some c /\
  get_date rec "value_date" = Some v /\
  get_opt_date rec "execution_date" = Some e /\
  dict_get rec "source" = Some (VStr "fx_order").
Proof.
  unfold order_record. destruct (String.eqb md "buy"); cbv zeta;
    repeat split; try reflexivity; destruct e; reflexivity.
Qed.

(** Runs [generate_order] from state [w] and names everything it
    computed. *)
Ltac open_order w :=
  let Hinv := fresh "Hinv" in
  let Hf := fresh "Hf" in
  destruct (generate_order_total w) as (rec & w' & Hgen);
  pose proof (generate_order_inv w rec w' Hgen) as Hinv;
  destruct Hinv as (ref & ot & md & st & bc & sc & rate & buy & sell & c & e & v & lp
                    & wr & wr' & wp & wp' & wa & wa' & wd & wd'
                    & Hrec & Hot & Href & Hmd & Hst & Hpair & Hrate & Hbuy & Hsell
                    & Hdates & Hclk & Hlp);
  pose proof (order_record_fields ref ot md st bc sc rate buy sell c e v lp) as Hf;
  cbv zeta in Hf; rewrite <- Hrec in Hf;
  destruct Hf as (Fref & Fot & Fst & Fbc & Fsc & Frate & Fbuy & Fsell & Fc & Fv & Fe & Fsrc);
  exists rec, w'; split; [exact Hgen|].

(** * The claims *)

(** C10.  Every generated record carries a field named "source" whose
    value is the constant string "fx_order", the same for all records;
    the data model of the specification lists no such field. *)
Theorem source_field_constant :
  (forall w, exists rec w',
      generate_order w = Ok (rec, w') /\
      dict_get rec "source" = Some (VStr "fx_order")) /\
  ~ In "source" spec_OrderRecord_fields.
Proof.
  split.
  - intros w. open_order w. exact Fsrc.
  - simpl. intuition discriminate.
Qed.

(** C5.  The currency-pair selector always returns two distinct
    currency codes of the universe, in the base-currency branch and in
    the cross-pair branch alike; hence every generated record has
    [buy_currency <> sell_currency]. *)
Theorem currencies_distinct :
  (forall w, exists b s w',
      generate_currency_pair w = Ok ((b, s), w') /\
      b <> s /\ In b CURRENCIES /\ In s CURRENCIES) /\
  (forall w, exists rec w',
      generate_order w = Ok (rec, w') /\
      exists b s,
        get_str rec "buy_currency" = Some b /\
        get_str rec "sell_currency" = Some s /\
        b <> s).
Proof.
  split.
  - intros w. destruct (generate_currency_pair_total w) as ([b s] & w' & H).
    exists b, s, w'. split; [exact H|]. eapply generate_currency_pair_inv; eassumption.
  - intros w. open_order w. exists bc, sc.
    apply generate_currency_pair_inv in Hpair as [Hne _]. auto.
Qed.

(** C6.  In every generated record the value date is the creation date
    plus an offset drawn from the integers 1 to 365: strictly later and
    at most 365 days later. *)
Theorem value_date_after_creation w :
  exists rec w',
    generate_order w = Ok (rec, w') /\
    exists c v offset,
      get_date rec "creation_date" = Some c /\
      get_date rec "value_date" = Some v /\
      1 <= offset <= 365 /\ v = c + offset /\
      c < v /\ v - c <= 365.
Proof.
  open_order w.
  apply generate_dates_inv in Hdates as (d & o & Hd & Ho & Hc & Hv & _).
  exists c, v, o. repeat (split; [first [assumption|lia]|]). lia.
Qed.

(** C7.  In every generated record the reference is a prefix followed
    by eight characters drawn from the uppercase letters and the
    digits; the prefix is "KCH-" when the order type is "chain" and
    "K-" otherwise, so the reference starts with "KCH-" exactly when
    the order type is "chain". *)
Theorem reference_format w :
  exists rec w',
    generate_order w = Ok (rec, w') /\
    exists order_type reference suffix,
      get_str rec "fx_order_type" = Some order_type /\
      get_str rec "reference" = Some reference /\
      String.length suffix = 8%nat /\
      Forall (fun ch => In ch ascii_uppercase_digits) (list_ascii_of_string suffix) /\
      reference = (if String.eqb order_type "chain" then "KCH-" else "K-") ++ suffix /\
      (String.prefix "KCH-" reference = true <-> order_type = "chain").
Proof.
  open_order w.
  apply generate_reference_inv in Href as (chars & Hlen & Hall & Href).
  exists ot, ref, (string_of_list_ascii chars).
  repeat (split; [first [assumption|reflexivity]|]).
  split; [rewrite length_string_of_list_ascii; exact Hlen|].
  split; [rewrite list_ascii_of_string_of_list_ascii; exact Hall|].
  split; [exact Href|].
  rewrite Href. destruct (String.eqb_spec ot "chain") as [->|Hne].
  - split; [reflexivity|]. intros _. cbn. destruct (string_of_list_ascii chars); reflexivity.
  - split; [|contradiction]. cbn. discriminate.
Qed.

Lemma in_binades_pos lo hi x : in_binades false lo hi x -> F64.is_pos x = true.
Proof. destruct x as [| | |s m e]; cbn; try tauto. intros (-> & _). reflexivity. Qed.

Lemma in_binades_finite s lo hi x : in_binades s lo hi x -> F64.is_finite x = true.
Proof. destruct x; cbn; tauto. Qed.

(** C8.  The rate synthesizer raises no exception.  For equal
    currencies it returns exactly 1.0; otherwise it returns
    [round(baseRate * (1 + variation), 7)] where
    [baseRate = table[sell] / table[buy]] and [variation] is the value
    [uniform(-0.02, 0.02)] draws, which lies between [-0.02] and [0.02].
    The returned rate is always a positive finite float. *)
Theorem rate_synthesizer buy_currency sell_currency w :
  exists rate w',
    generate_rate buy_currency sell_currency w = Ok (rate, w') /\
    (buy_currency = sell_currency -> rate = F64.of_Z 1) /\
    (buy_currency <> sell_currency ->
       rate = rate_of buy_currency sell_currency (rng w 0%nat) /\
       random.uniform (F64.opp (F64.dec 2 2)) (F64.dec 2 2) w
         = Ok (variation_of (rng w 0%nat), w') /\
       F64.leb (F64.opp (F64.dec 2 2)) (variation_of (rng w 0%nat)) = true /\
       F64.leb (variation_of (rng w 0%nat)) (F64.dec 2 2) = true) /\
    F64.is_pos rate = true /\ F64.is_finite rate = true.
Proof.
  destruct (generate_rate_total buy_currency sell_currency w) as (rate & w' & H).
  exists rate, w'. split; [exact H|].
  pose proof (generate_rate_binades _ _ _ _ _ H) as Hb.
  split; [|split; [|split; [eapply in_binades_pos|eapply in_binades_finite]; exact Hb]].
  - intros ->. rewrite generate_rate_same in H. now inversion H.
  - intros Hne. rewrite generate_rate_diff in H by assumption.
    inversion H; subst. split; [reflexivity|]. split; [reflexivity|].
    exact (variation_range (rng w 0%nat)).
Qed.



(** For a positive float [round] is [int] or one more. *)
Lemma to_int_round_int_pos lo hi x t :
  in_binades false lo hi x -> F64.to_int x = Ok t ->
  exists r, F64.round_int x = Ok r /\ (r = t \/ r = t + 1).
Proof.
  destruct x as [s|s| |s m e]; cbn [in_binades]; try tauto.
  intros (-> & _) H. cbn [F64.to_int F64.round_int cond_Zopp] in *.
  inversion H; subst t; clear H. eexists. split; [reflexivity|].
  unfold F64.scaled_round. change (10 ^ 0) with 1. rewrite !Z.mul_1_r.
  destruct (Z.leb_spec 0 e) as [He|He].
  - rewrite Z.shiftl_mul_pow2 by lia. auto.
  - rewrite Z.shiftl_div_pow2 by lia.
    destruct (round_half_even_range (Zpos m) (2 ^ (- e))) as [->| ->]; auto.
Qed.

(** C1, as the code has it.  In every generated record
    [sell_amount_cents] is [int(buy_amount_cents * rate)], the float
    product truncated toward zero; [round(buy_amount_cents * rate)] is
    that integer or the next one. *)
Theorem sell_amount_truncated w :
  exists rec w',
    generate_order w = Ok (rec, w') /\
    exists buy rate sell rounded,
      get_int rec "buy_amount_cents" = Some buy /\
      get_float rec "rate" = Some rate /\
      get_int rec "sell_amount_cents" = Some sell /\
      F64.to_int (F64.mul (F64.of_Z buy) rate) = Ok sell /\
      F64.round_int (F64.mul (F64.of_Z buy) rate) = Ok rounded /\
      (rounded = sell \/ rounded = sell + 1).
Proof.
  open_order w.
  pose proof (mul_in_binades false false 19 39 (- 10) 12 _ _
                (of_Z_amount buy (generate_amount_cents_bounds _ _ _ Hbuy))
                (generate_rate_binades _ _ _ _ _ Hrate) ltac:(lia) ltac:(lia)) as Hprod.
  destruct (to_int_round_int_pos _ _ _ _ Hprod Hsell) as (r & Hr & Hcases).
  exists buy, rate, sell, r. auto 10.
Qed.

(** C1 as stated fails: with all raw draws equal to zero the pair is
    EUR/USD, the rate is 1.029 and the buy amount 1000000; the float
    product is just below 1029000, so the record holds 1028999 while
    [round] of the product is 1029000. *)
Lemma sell_amount_not_rounded :
  match run generate_order (world_of [] []) with
  | Some rec =>
      get_int rec "buy_amount_cents" = Some 1000000 /\
      get_float rec "rate" = Some (S754_finite false 4634204016564240 (- 52)) /\
      get_int rec "sell_amount_cents" = Some 1028999 /\
      F64.round_int
        (F64.mul (F64.of_Z 1000000) (S754_finite false 4634204016564240 (- 52)))
        = Ok 1029000
  | None => False
  end.
Proof. vm_compute. repeat split; reflexivity. Qed.

(** ** Order amounts against their documented ranges *)

Lemma small_amount_range w a w' :
  amount_for_size "small" w = Ok (a, w') ->
  exists r, 10000 <= r <= 5000000 /\ a = r * 100 /\ 1000000 <= a <= 500000000.
Proof.
  intros H. apply amount_for_size_inv in H as (lo & hi & r & -> & Hr & _ & Hb).
  cbn in Hb. inversion Hb; subst. exists r. lia.
Qed.

(** C2, the code at a failing input.  When the first draw selects the
    "small" tier and [randint(100_00, 50_000_00)] returns its upper
    bound, [generate_amount_cents] returns 500000000, which is outside
    the range [[10000, 5000000]] the claim (and the comment "100 - 50K"
    next to the call) gives for that tier: the literal is already in
    cents and is multiplied by 100 once more. *)
Theorem small_amount_exceeds_documented_range :
  run (random.choices1 SIZE_TYPES SIZE_WEIGHTS) (world_of [0; 4990000] [])
    = Some "small" /\
  run generate_amount_cents (world_of [0; 4990000] []) = Some 500000000 /\
  ~ (10000 <= 500000000 <= 5000000).
Proof. split; [|split]; [vm_compute; reflexivity..|lia]. Qed.

(** ** Execution dates *)

(** The dates of a record, related to the day its creation date is
    counted back from and to the drawn [days_ago]. *)
Lemma generated_dates status wd w c e v wd' :
  generate_dates status wd = Ok ((c, e, v), wd') -> clock wd = clock w ->
  exists days_ago,
    0 <= days_ago <= 365 /\ c = today w - days_ago /\
    let m := max_exec_days days_ago (clock w 0%nat) (clock w 1%nat) in
    (e <> None <-> is_executed status = true /\ 0 < m) /\
    (forall d, e = Some d -> c <= d <= c + m).
Proof.
  intros H Hclk. apply generate_dates_inv in H as (d & o & Hd & _ & Hc & _ & He).
  rewrite Hclk in Hc, He. exists d. fold (today w) in Hc.
  split; [assumption|]. split; [assumption|]. cbv zeta in *.
  destruct (is_executed status); cbn [andb] in He.
  - destruct (Z.ltb_spec 0 (max_exec_days d (clock w 0%nat) (clock w 1%nat))) as [Hm|Hm].
    + destruct He as (eo & Heo & ->). split.
      * split; [auto|discriminate].
      * intros d' Hd'. inversion Hd'; subst. lia.
    + subst e. split.
      * split; [congruence|]. intros [_ H]. lia.
      * discriminate.
  - subst e. split.
    + split; [congruence|]. intros [H _]. discriminate.
    + discriminate.
Qed.

(** C3, as the code has it.  When the clock does not run backwards
    between the two readings of [generate_dates], the execution date of
    a generated record is present exactly when the status is
    "closed_to_trading" or "completed" and the drawn [days_ago] is
    strictly positive; when present it lies between the creation date
    and [min(today, creation_date + days_ago)]. *)
Theorem execution_date_presence w :
  clock w 0%nat <= clock w 1%nat ->
  exists rec w',
    generate_order w = Ok (rec, w') /\
    exists status c e days_ago,
      get_str rec "status" = Some status /\
      get_date rec "creation_date" = Some c /\
      get_opt_date rec "execution_date" = Some e /\
      0 <= days_ago <= 365 /\ c = today w - days_ago /\
      (e <> None <->
       (status = "closed_to_trading" \/ status = "completed") /\ 0 < days_ago) /\
      (forall d, e = Some d -> c <= d <= Z.min (today w) (c + days_ago)).
Proof.
  intros Hmono. open_order w.
  destruct (generated_dates _ _ w _ _ _ _ Hdates Hclk) as (d & Hd & Hc & Hiff & Hrange).
  cbv zeta in *. rewrite (max_exec_days_monotone_clock _ _ _ Hmono) in *.
  exists st, c, e, d. repeat (split; [assumption|]).
  assert (Hex : is_executed st = true <-> st = "closed_to_trading" \/ st = "completed").
  { unfold is_executed. rewrite orb_true_iff, !String.eqb_eq. reflexivity. }
  split.
  - rewrite Hiff, Hex. reflexivity.
  - intros d' Hd'. specialize (Hrange d' Hd'). lia.
Qed.

(** C3 as stated fails: with the status draw selecting
    "closed_to_trading" and [days_ago] drawn as 0 (the clock standing
    still), the record has that status and no execution date. *)
Lemma execution_date_absent_when_closed_today :
  match run generate_order (world_of [0; 0; 0; 0; 0; 0; 0; 0; 0; 0; 2 ^ 52] [0; 0]) with
  | Some rec =>
      get_str rec "status" = Some "closed_to_trading" /\
      get_opt_date rec "execution_date" = Some None
  | None => False
  end.
Proof. vm_compute. split; reflexivity. Qed.

(** C4, as the code has it.  When the second reading of the clock in
    [generate_dates] is not earlier than the first, every generated
    record whose status is "closed_to_trading" or "completed" and whose
    drawn [days_ago] is strictly positive has an execution date, which
    lies between the creation date and today. *)
Theorem execution_date_when_executed w :
  clock w 0%nat <= clock w 1%nat ->
  exists rec w',
    generate_order w = Ok (rec, w') /\
    exists status c days_ago,
      get_str rec "status" = Some status /\
      get_date rec "creation_date" = Some c /\
      0 <= days_ago <= 365 /\ c = today w - days_ago /\
      (status = "closed_to_trading" \/ status = "completed" ->
       0 < days_ago ->
       exists d,
         get_opt_date rec "execution_date" = Some (Some d) /\
         c <= d <= today w).
Proof.
  intros Hmono. open_order w.
  destruct (generated_dates _ _ w _ _ _ _ Hdates Hclk) as (d & Hd & Hc & Hiff & Hrange).
  cbv zeta in *. rewrite (max_exec_days_monotone_clock _ _ _ Hmono) in *.
  exists st, c, d. repeat (split; [assumption|]).
  intros Hst' Hpos.
  assert (Hex : is_executed st = true).
  { unfold is_executed. rewrite orb_true_iff, !String.eqb_eq. exact Hst'. }
  destruct e as [d'|].
  - exists d'. split; [exact Fe|]. specialize (Hrange d' eq_refl). lia.
  - exfalso. apply (proj2 Hiff); [split; assumption|reflexivity].
Qed.

(** C4 as stated fails: the status draw selects "closed_to_trading" and
    [days_ago] is drawn as 1, so the creation date is the day before
    today; the second reading of the clock is one microsecond earlier
    than the first, so [(datetime.now() - creation_date).days] is 0, the
    guard [max_exec_days > 0] fails and the record has that status, a
    positive [days_ago] and no execution date. *)
Lemma execution_date_absent_when_clock_steps_back :
  today world_clock_steps_back = 1000 /\
  datetime.strftime_ymd (clock world_clock_steps_back 1%nat) = 1000 /\
  clock world_clock_steps_back 1%nat = clock world_clock_steps_back 0%nat - 1 /\
  match run generate_order world_clock_steps_back with
  | Some rec =>
      get_str rec "status" = Some "closed_to_trading" /\
      get_date rec "creation_date" = Some 999 /\
      get_opt_date rec "execution_date" = Some None
  | None => False
  end.
Proof. vm_compute. repeat split; reflexivity. Qed.

(** The presence of the execution date at a state whose clock advances. *)
Lemma execution_date_presence_witness :
  clock world_closed_5_days 0%nat <= clock world_closed_5_days 1%nat /\
  exists rec w',
    generate_order world_closed_5_days = Ok (rec, w') /\
    exists status c e days_ago,
      get_str rec "status" = Some status /\
      get_date rec "creation_date" = Some c /\
      get_opt_date rec "execution_date" = Some e /\
      0 <= days_ago <= 365 /\ c = today world_closed_5_days - days_ago /\
      (e <> None <->
       (status = "closed_to_trading" \/ status = "completed") /\ 0 < days_ago) /\
      (forall d, e = Some d ->
         c <= d <= Z.min (today world_closed_5_days) (c + days_ago)).
Proof.
  assert (H : clock world_closed_5_days 0%nat <= clock world_closed_5_days 1%nat)
    by (vm_compute; discriminate).
  split; [exact H|]. exact (execution_date_presence world_closed_5_days H).
Defined.

(** An executed order at a state whose clock advances. *)
Lemma execution_date_when_executed_witness :
  clock world_closed_3_days 0%nat <= clock world_closed_3_days 1%nat /\
  exists rec w',
    generate_order world_closed_3_days = Ok (rec, w') /\
    exists status c days_ago,
      get_str rec "status" = Some status /\
      get_date rec "creation_date" = Some c /\
      0 <= days_ago <= 365 /\ c = today world_closed_3_days - days_ago /\
      (status = "closed_to_trading" \/ status = "completed" ->
       0 < days_ago ->
       exists d,
         get_opt_date rec "execution_date" = Some (Some d) /\
         c <= d <= today world_closed_3_days).
Proof.
  assert (H : clock world_closed_3_days 0%nat <= clock world_closed_3_days 1%nat)
    by (vm_compute; discriminate).
  split; [exact H|]. exact (execution_date_when_executed world_closed_3_days H).
Defined.

(** The two sample states do produce executed orders with a positive
    [days_ago], so the statements above are not vacuous there. *)
Example sample_states_executed :
  option_map (fun rec => (get_str rec "status", get_date rec "creation_date",
                          get_opt_date rec "execution_date"))
    (run generate_order world_closed_5_days)
    = Some (Some "closed_to_trading", Some 995, Some (Some 998)) /\
  option_map (fun rec => (get_str rec "status", get_date rec "creation_date",
                          get_opt_date rec "execution_date"))
    (run generate_order world_closed_3_days)
    = Some (Some "closed_to_trading", Some 1997, Some (Some 1999)).
Proof. split; vm_compute; reflexivity. Qed.

(** * Further properties of the generator *)

(** ** The remaining fields of a record *)

Lemma order_record_projection ref ot md st bc sc rate buy sell c e v lp :
  let rec := order_record ref ot md st bc sc rate buy sell c e v lp in
  let is_buy := String.eqb md "buy" in
  get_str rec "id" = Some ref /\
  get_str rec "market_direction" = Some md /\
  get_str rec "liquidity_provider" = Some lp /\
  get_int rec "amount_cents" = Some (if is_buy then buy else sell) /\
  get_int rec "counter_amount_cents" = Some (if is_buy then sell else buy) /\
  get_str rec "currency" = Some (if is_buy then bc else sc) /\
  get_str rec "counter_currency" = Some (if is_buy then sc else bc).
Proof.
  unfold order_record. destruct (String.eqb md "buy"); repeat split; reflexivity.
Qed.

(** Names the direction-dependent fields of the record opened by
    [open_order]. *)
Ltac open_projection :=
  match goal with
  | Hrec : ?rec = order_record ?ref ?ot ?md ?st ?bc ?sc ?rate ?buy ?sell ?c ?e ?v ?lp |- _ =>
      let Hp := fresh "Hp" in
      pose proof (order_record_projection ref ot md st bc sc rate buy sell c e v lp) as Hp;
      cbv zeta in Hp; rewrite <- Hrec in Hp;
      destruct Hp as (Fid & Fmd & Flp & Famt & Fcamt & Fcur & Fccur)
  end.

Lemma length_append (s1 s2 : string) :
  String.length (s1 ++ s2) = (String.length s1 + String.length s2)%nat.
Proof. induction s1 as [|ch s1 IH]; simpl; congruence. Qed.

(** X1.  The direction-dependent fields: [market_direction] is "buy" or
    "sell"; for a buy order [amount_cents] and [currency] are the buy leg
    and [counter_amount_cents] and [counter_currency] the sell leg, for a
    sell order the other way round.  The two projected currencies differ. *)
Theorem direction_projection w :
  exists rec w',
    generate_order w = Ok (rec, w') /\
    exists md buy sell bc sc,
      get_str rec "market_direction" = Some md /\
      get_int rec "buy_amount_cents" = Some buy /\
      get_int rec "sell_amount_cents" = Some sell /\
      get_str rec "buy_currency" = Some bc /\
      get_str rec "sell_currency" = Some sc /\
      (md = "buy" \/ md = "sell") /\
      (md = "buy" ->
         get_int rec "amount_cents" = Some buy /\
         get_int rec "counter_amount_cents" = Some sell /\
         get_str rec "currency" = Some bc /\
         get_str rec "counter_currency" = Some sc) /\
      (md = "sell" ->
         get_int rec "amount_cents" = Some sell /\
         get_int rec "counter_amount_cents" = Some buy /\
         get_str rec "currency" = Some sc /\
         get_str rec "counter_currency" = Some bc) /\
      get_str rec "currency" <> get_str rec "counter_currency".
Proof.
  open_order w. open_projection. exists md, buy, sell, bc, sc.
  apply generate_currency_pair_inv in Hpair as (Hne & _ & _).
  repeat (split; [assumption|]).
  assert (Hcases : md = "buy" \/ md = "sell")
    by (destruct Hmd as [<-|[<-|[]]]; auto).
  split; [exact Hcases|].
  clear Hgen Href Hrate Hbuy Hsell Hdates Hrec.
  destruct Hcases as [-> | ->].
  - split; [intros _; repeat split; assumption|].
    split; [intros E; discriminate E|].
    rewrite Fcur, Fccur. intros E. injection E as E. exact (Hne E).
  - split; [intros E; discriminate E|].
    split; [intros _; repeat split; assumption|].
    rewrite Fcur, Fccur. intros E. injection E as E. exact (Hne (eq_sym E)).
Qed.

(** X2.  [id] and [reference] hold the same string: the prefix and eight
    more characters, twelve characters for a chain order and ten
    otherwise. *)
Theorem identifier_is_reference w :
  exists rec w',
    generate_order w = Ok (rec, w') /\
    exists r ot,
      get_str rec "id" = Some r /\
      get_str rec "reference" = Some r /\
      get_str rec "fx_order_type" = Some ot /\
      String.length r = (if String.eqb ot "chain" then 12 else 10)%nat.
Proof.
  open_order w. open_projection. exists ref, ot.
  repeat (split; [assumption|]).
  apply generate_reference_inv in Href as (chars & Hlen & _ & ->).
  rewrite length_append, length_string_of_list_ascii, Hlen.
  destruct (String.eqb ot "chain"); reflexivity.
Qed.

(** X3.  The categorical fields take their values in the configured
    lists: the order type, the direction, the status and the liquidity
    provider, and all four currency fields are codes of [CURRENCIES]. *)
Theorem categorical_fields w :
  exists rec w',
    generate_order w = Ok (rec, w') /\
    exists ot md st lp bc sc cur ccur,
      get_str rec "fx_order_type" = Some ot /\ In ot FX_ORDER_TYPES /\
      get_str rec "market_direction" = Some md /\ In md MARKET_DIRECTIONS /\
      get_str rec "status" = Some st /\ In st STATUSES /\
      get_str rec "liquidity_provider" = Some lp /\ In lp LIQUIDITY_PROVIDERS /\
      get_str rec "buy_currency" = Some bc /\ In bc CURRENCIES /\
      get_str rec "sell_currency" = Some sc /\ In sc CURRENCIES /\
      get_str rec "currency" = Some cur /\ In cur CURRENCIES /\
      get_str rec "counter_currency" = Some ccur /\ In ccur CURRENCIES.
Proof.
  open_order w. open_projection.
  apply generate_currency_pair_inv in Hpair as (_ & Hb & Hs).
  exists ot, md, st, lp, bc, sc.
  exists (if String.eqb md "buy" then bc else sc), (if String.eqb md "buy" then sc else bc).
  repeat (split; [assumption|]).
  split; [destruct (String.eqb md "buy"); assumption|].
  split; [assumption|]. destruct (String.eqb md "buy"); assumption.
Qed.

(** ** Order amounts *)

(** The outcome of a weighted draw depends on the next raw draw only. *)
Lemma choices1_run {A} (population : list A) weights w x w' :
  random.choices1 population weights w = Ok (x, w') ->
  forall w2, rng w2 0%nat = rng w 0%nat ->
    random.choices1 population weights w2 = Ok (x, advance w2).
Proof.
  unfold random.choices1.
  destruct (negb _); [discriminate|].
  destruct (random.accumulate weights) as [|c cs]; [discriminate|].
  destruct (F64.leb _ _); [discriminate|].
  destruct (negb _); [discriminate|].
  intros H w2 Hw.
  rewrite (bind_ok _ _ _ _ _ (random_run w)) in H.
  rewrite (bind_ok _ _ _ _ _ (random_run w2)). rewrite Hw.
  destruct (nth_error population _) as [y|]; [|discriminate].
  inv_ret H. reflexivity.
Qed.

Lemma choices1_at {A} (population : list A) weights k x :
  run (random.choices1 population weights) (world_of [k] []) = Some x ->
  forall w, rng w 0%nat = k ->
    random.choices1 population weights w = Ok (x, advance w).
Proof.
  unfold run. intros H w Hw.
  destruct (random.choices1 population weights (world_of [k] [])) as [[y w1]|] eqn:E;
    [|discriminate].
  inversion H; subst y. eapply choices1_run; [exact E|]. exact Hw.
Qed.

(** Each size tier is selected by some value of [random()]: 0, 0.5, 0.75
    and 0.96875. *)
Lemma size_tier_draws :
  run (random.choices1 SIZE_TYPES SIZE_WEIGHTS) (world_of [0] []) = Some "small" /\
  run (random.choices1 SIZE_TYPES SIZE_WEIGHTS) (world_of [2 ^ 52] []) = Some "medium" /\
  run (random.choices1 SIZE_TYPES SIZE_WEIGHTS) (world_of [3 * 2 ^ 51] []) = Some "large" /\
  run (random.choices1 SIZE_TYPES SIZE_WEIGHTS) (world_of [31 * 2 ^ 48] [])
    = Some "very_large".
Proof. vm_compute. repeat split; reflexivity. Qed.

Lemma amount_for_size_run size_type lo hi r k :
  (lo, hi) =
    (if String.eqb size_type "small" then (10000, 5000000)
     else if String.eqb size_type "medium" then (5000000, 50000000)
     else if String.eqb size_type "large" then (50000000, 500000000)
     else (500000000, 10000000000)) ->
  lo <= r <= hi ->
  run (random.choices1 SIZE_TYPES SIZE_WEIGHTS) (world_of [k] []) = Some size_type ->
  exists w', generate_amount_cents (world_of [k; r - lo] []) = Ok (r * 100, w').
Proof.
  intros Hr Hin Hk. unfold generate_amount_cents.
  rewrite (bind_ok _ _ _ _ _
             (choices1_at SIZE_TYPES SIZE_WEIGHTS k size_type Hk
                (world_of [k; r - lo] []) eq_refl)).
  assert (Hd : rng (advance (world_of [k; r - lo] [])) 0%nat = r - lo) by reflexivity.
  assert (Hrun : forall a b, (a, b) = (lo, hi) ->
            random.randint a b (advance (world_of [k; r - lo] []))
              = Ok (r, advance (advance (world_of [k; r - lo] [])))).
  { intros a b E. inversion E; subst a b.
    rewrite randint_run by lia. rewrite Hd, Z.mod_small by lia.
    f_equal. f_equal. lia. }
  unfold amount_for_size.
  destruct (String.eqb size_type "small");
    [|destruct (String.eqb size_type "medium");
      [|destruct (String.eqb size_type "large")]];
    rewrite (bind_ok _ _ _ _ _ (Hrun _ _ (eq_sym Hr))); eexists; reflexivity.
Qed.

(** X5.  The amounts [generate_amount_cents] can return are exactly the
    multiples of 100 from 1,000,000 to 1,000,000,000,000: the four tiers
    meet at their end points and leave no gap. *)
Theorem amount_image a :
  (exists w w', generate_amount_cents w = Ok (a, w')) <->
  (exists r, 10000 <= r <= 10000000000 /\ a = r * 100).
Proof.
  split.
  - intros (w & w' & H).
    apply generate_amount_cents_inv in H as (size_type & _ & H).
    apply amount_for_size_inv in H as (lo & hi & r & -> & Hr & _ & Hlh).
    exists r. split; [|reflexivity].
    destruct (String.eqb size_type "small");
      [|destruct (String.eqb size_type "medium");
        [|destruct (String.eqb size_type "large")]];
      inversion Hlh; subst lo hi; lia.
  - intros (r & Hr & ->).
    destruct size_tier_draws as (Hs & Hm & Hl & Hv).
    destruct (Z_le_gt_dec r 5000000) as [H1|H1];
      [|destruct (Z_le_gt_dec r 50000000) as [H2|H2];
        [|destruct (Z_le_gt_dec r 500000000) as [H3|H3]]].
    + destruct (amount_for_size_run "small" 10000 5000000 r 0 eq_refl ltac:(lia) Hs)
        as [w' H]. eauto.
    + destruct (amount_for_size_run "medium" 5000000 50000000 r (2 ^ 52) eq_refl
                  ltac:(lia) Hm) as [w' H]. eauto.
    + destruct (amount_for_size_run "large" 50000000 500000000 r (3 * 2 ^ 51) eq_refl
                  ltac:(lia) Hl) as [w' H]. eauto.
    + destruct (amount_for_size_run "very_large" 500000000 10000000000 r (31 * 2 ^ 48)
                  eq_refl ltac:(lia) Hv) as [w' H]. eauto.
Qed.

(** [int(x)] of a positive float of magnitude in [[2^lo, 2^(hi+1))]. *)
Lemma to_int_binades lo hi x t :
  in_binades false lo hi x -> 0 <= lo -> F64.to_int x = Ok t ->
  2 ^ lo <= t < 2 ^ (hi + 1).
Proof.
  destruct x as [| | |s m e]; cbn [in_binades F64.to_int]; try tauto.
  intros (-> & _ & Hb) Hlo H. inversion H; subst t; clear H.
  unfold binade in Hb. cbn [cond_Zopp].
  pose proof (Z.log2_nonneg (Zpos m)) as Hn.
  assert (Ht : 0 < Z.shiftl (Zpos m) e /\
               Z.log2 (Z.shiftl (Zpos m) e) = Z.log2 (Zpos m) + e).
  { destruct (Z_le_gt_dec 0 e) as [He|He].
    - rewrite Z.shiftl_mul_pow2 by lia. rewrite log2_mul_pow2 by lia.
      split; [|reflexivity]. apply Z.mul_pos_pos; [lia|apply Z.pow_pos_nonneg; lia].
    - rewrite Z.shiftl_div_pow2 by lia.
      destruct (log2_div_pow2 (Zpos m) (- e) ltac:(lia) ltac:(lia)) as [Hp Hl].
      split; [exact Hp|lia]. }
  destruct Ht as [Hp Hl].
  destruct (Z.log2_spec _ Hp) as [H1 H2]. rewrite Hl in H1, H2. unfold Z.succ in H2.
  split.
  - apply Z.le_trans with (2 ^ (Z.log2 (Zpos m) + e)); [|exact H1].
    apply Z.pow_le_mono_r; lia.
  - apply Z.lt_le_trans with (2 ^ (Z.log2 (Zpos m) + e + 1)); [exact H2|].
    apply Z.pow_le_mono_r; lia.
Qed.

(** X6.  All four amounts of a record are strictly positive and fit a
    signed 64-bit integer: the buy amount is at most 10^12 and the sell
    amount, the truncated product with the rate, lies in [[2^9, 2^54)]. *)
Theorem amounts_fit_int64 w :
  exists rec w',
    generate_order w = Ok (rec, w') /\
    exists buy sell amt camt,
      get_int rec "buy_amount_cents" = Some buy /\
      get_int rec "sell_amount_cents" = Some sell /\
      get_int rec "amount_cents" = Some amt /\
      get_int rec "counter_amount_cents" = Some camt /\
      1000000 <= buy <= 1000000000000 /\
      2 ^ 9 <= sell < 2 ^ 54 /\
      0 < amt < 2 ^ 63 /\ 0 < camt < 2 ^ 63.
Proof.
  open_order w. open_projection.
  pose proof (generate_amount_cents_bounds _ _ _ Hbuy) as Hb.
  pose proof (mul_in_binades false false 19 39 (- 10) 12 _ _
                (of_Z_amount buy Hb)
                (generate_rate_binades _ _ _ _ _ Hrate) ltac:(lia) ltac:(lia)) as Hprod.
  pose proof (to_int_binades _ _ _ _ Hprod ltac:(lia) Hsell) as Hs.
  replace (39 + 12 + 2 + 1) with 54 in Hs by lia.
  replace (19 + - 10) with 9 in Hs by lia.
  assert (H9 : 0 < 2 ^ 9) by lia.
  assert (H54 : 2 ^ 54 < 2 ^ 63) by (apply Z.pow_lt_mono_r; lia).
  assert (H12 : 1000000000000 < 2 ^ 63) by (vm_compute; reflexivity).
  exists buy, sell, (if String.eqb md "buy" then buy else sell),
    (if String.eqb md "buy" then sell else buy).
  repeat (split; [assumption|]).
  clear Hgen Href Hrate Hbuy Hsell Hdates Hrec Hpair.
  destruct (String.eqb md "buy"); lia.
Qed.

(** ** Dates *)

(** X7.  The dates of a record against the day its generation read from
    the clock: the creation date is that day or one of the 365 before
    it, never a later one; the value date lies between 364 days before
    and 365 days after that day. *)
Theorem dates_window w :
  exists rec w',
    generate_order w = Ok (rec, w') /\
    exists c v,
      get_date rec "creation_date" = Some c /\
      get_date rec "value_date" = Some v /\
      today w - 365 <= c <= today w /\
      today w - 364 <= v <= today w + 365.
Proof.
  open_order w. exists c, v.
  apply generate_dates_inv in Hdates as (d & o & Hd & Ho & Hc & Hv & _).
  rewrite Hclk in Hc. fold (today w) in Hc.
  repeat (split; [assumption|]).
  clear Hgen Href Hrate Hbuy Hsell Hrec Hpair. lia.
Qed.

Lemma div_add_le a b D : 0 < D -> a / D + (b - a) / D <= b / D.
Proof.
  intros HD. apply Z.div_le_lower_bound; [exact HD|].
  pose proof (Z.mul_div_le a D HD). pose proof (Z.mul_div_le (b - a) D HD). lia.
Qed.

Lemma run_ok {A} (c : M A) w a :
  run c w = Some a -> exists w', c w = Ok (a, w').
Proof.
  unfold run. destruct (c w) as [[a' w']|e]; [|discriminate].
  intros H. inversion H; subst a'. now exists w'.
Qed.

(** X8.  Whenever [generate_dates] returns, for any status string and
    any behaviour of the clock: a status other than "closed_to_trading"
    and "completed" has no execution date; an execution date, when there
    is one, is not before the creation date and not after the calendar
    day of either reading of the clock, also when the second reading is
    earlier than the first. *)
Theorem execution_date_clamped status w c e v w' :
  generate_dates status w = Ok ((c, e, v), w') ->
  (is_executed status = false -> e = None) /\
  (forall d, e = Some d ->
     c <= d /\
     d <= datetime.strftime_ymd (clock w 0%nat) /\
     d <= datetime.strftime_ymd (clock w 1%nat)).
Proof.
  intros H.
  apply generate_dates_inv in H as (d & o & Hd & Ho & Hc & Hv & He).
  cbv zeta in He.
  assert (Hm : c + max_exec_days d (clock w 0%nat) (clock w 1%nat)
               <= datetime.strftime_ymd (clock w 1%nat)).
  { unfold max_exec_days. rewrite days_since_creation.
    pose proof (div_add_le (clock w 0%nat) (clock w 1%nat) datetime.day_us
                  ltac:(reflexivity)) as Hle.
    unfold datetime.strftime_ymd in *. lia. }
  pose proof (max_exec_days_le d (clock w 0%nat) (clock w 1%nat)) as Hmd.
  destruct (is_executed status); cbn [andb] in He.
  - split; [intros E; discriminate E|].
    destruct (0 <? max_exec_days d (clock w 0%nat) (clock w 1%nat)).
    + destruct He as (eo & Heo & ->). intros d' Hd'. inversion Hd'; subst d'. lia.
    + subst e. intros d' Hd'. discriminate Hd'.
  - subst e. split; [reflexivity|]. intros d' Hd'. discriminate Hd'.
Qed.

(** A completed order whose second clock reading is two days earlier
    than the first: [days_ago] is 5, the creation date 995, and the
    execution offset is clamped to the 2 days elapsed on the clock. *)
Lemma execution_date_clamped_witness :
  exists w',
    generate_dates "completed" world_clock_two_days_back
      = Ok ((995, Some 997, 1005), w') /\
    (is_executed "completed" = false -> Some 997 = None) /\
    (forall d, Some 997 = Some d ->
       995 <= d /\
       d <= datetime.strftime_ymd (clock world_clock_two_days_back 0%nat) /\
       d <= datetime.strftime_ymd (clock world_clock_two_days_back 1%nat)).
Proof.
  destruct (run_ok (generate_dates "completed") world_clock_two_days_back
              (995, Some 997, 1005) ltac:(vm_compute; reflexivity)) as [w' H].
  exists w'. split; [exact H|].
  exact (execution_date_clamped "completed" world_clock_two_days_back
           995 (Some 997) 1005 w' H).
Defined.

(** ** Currency pairs and rates *)

(** X9.  How [generate_currency_pair] uses its draws: when the first
    [random()] is below 0.7 the pair holds "EUR" once, as the buy
    currency when the next [random()] (the third draw; the second picks
    the other currency) is below 0.5 and as the sell currency otherwise;
    when it is not below 0.7 the pair is two different non-EUR codes. *)
Theorem currency_pair_structure w :
  exists b s w',
    generate_currency_pair w = Ok ((b, s), w') /\
    if F64.ltb (random_of (rng w 0%nat)) (F64.dec 7 1)
    then
      if F64.ltb (random_of (rng w 2%nat)) (F64.dec 5 1)
      then b = "EUR" /\ In s non_eur
      else In b non_eur /\ s = "EUR"
    else In b non_eur /\ In s non_eur /\ b <> s.
Proof.
  unfold generate_currency_pair, random_of.
  rewrite (bind_ok _ _ _ _ _ (random_run w)).
  destruct (F64.ltb _ (F64.dec 7 1)).
  - pose proof (choice_run non_eur "EUR" (advance w) ltac:(discriminate)) as Hc.
    pose proof (choice_inv _ _ _ _ Hc) as [Hin _].
    rewrite (bind_ok _ _ _ _ _ Hc).
    rewrite (bind_ok _ _ _ _ _ (random_run _)).
    change (rng (advance (advance w)) 0%nat) with (rng w 2%nat).
    destruct (F64.ltb _ (F64.dec 5 1)); eexists _, _, _; (split; [reflexivity|]);
      split; first [reflexivity | exact Hin].
  - destruct (sample_loop_total non_eur (List.length non_eur) 2 (advance w))
      as (xs & w' & Hxs & Hlen); [cbn; lia|].
    assert (Hs : random.sample non_eur 2 (advance w) = Ok (xs, w')) by exact Hxs.
    rewrite (bind_ok _ _ _ _ _ Hs).
    destruct xs as [|x [|y [|z xs]]]; try discriminate Hlen.
    apply sample_loop_two_distinct in Hxs as (Hne & Hx & Hy);
      [|apply NoDup_non_eur|cbn; lia].
    exists x, y, w'. split; [reflexivity|]. auto.
Qed.

Lemma table_lookup c :
  In c CURRENCIES -> dict_get EXCHANGE_RATES c = Some (table_rate c).
Proof.
  intros H. cbn [In CURRENCIES] in H.
  repeat (destruct H as [<-|H]; [reflexivity|]). destruct H.
Qed.

(** X10.  Inside [generate_order] the rate always comes from the table:
    the two currencies of the pair differ and both have an entry in
    [EXCHANGE_RATES], so the equal-currency branch of [generate_rate] and
    the default of the lookup are never used, and the rate is
    [round(sell_rate / buy_rate * (1 + variation), 7)] for some variation
    between -0.02 and 0.02. *)
Theorem rate_from_table w :
  exists rec w',
    generate_order w = Ok (rec, w') /\
    exists bc sc rate buy_rate sell_rate variation,
      get_str rec "buy_currency" = Some bc /\
      get_str rec "sell_currency" = Some sc /\
      get_float rec "rate" = Some rate /\
      bc <> sc /\
      dict_get EXCHANGE_RATES bc = Some buy_rate /\
      dict_get EXCHANGE_RATES sc = Some sell_rate /\
      F64.leb (F64.opp (F64.dec 2 2)) variation = true /\
      F64.leb variation (F64.dec 2 2) = true /\
      rate = F64.round_ndigits
               (F64.mul (F64.div sell_rate buy_rate)
                  (F64.add (F64.of_Z 1) variation)) 7.
Proof.
  open_order w.
  apply generate_currency_pair_inv in Hpair as (Hne & Hb & Hs).
  rewrite generate_rate_diff in Hrate by assumption.
  inversion Hrate; subst rate wa; clear Hrate.
  exists bc, sc, (rate_of bc sc (rng wp' 0%nat)), (table_rate bc), (table_rate sc),
    (variation_of (rng wp' 0%nat)).
  repeat (split; [assumption|]).
  split; [apply table_lookup; exact Hb|].
  split; [apply table_lookup; exact Hs|].
  split; [exact (proj1 (variation_range _))|].
  split; [exact (proj2 (variation_range _))|]. reflexivity.
Qed.

(** ** What can be generated *)

Lemma pair_draws_reach b s :
  In b CURRENCIES -> In s CURRENCIES -> b <> s ->
  existsb (fun d =>
             match run generate_currency_pair (world_of d []) with
             | Some (b', s') => String.eqb b' b && String.eqb s' s
             | None => false
             end) pair_draws = true.
Proof.
  intros Hb Hs Hne. cbn [In CURRENCIES] in Hb, Hs.
  repeat (destruct Hb as [<-|Hb]; [|]); try (destruct Hb);
    repeat (destruct Hs as [<-|Hs]; [|]); try (destruct Hs);
    first [ exfalso; apply Hne; reflexivity | vm_compute; reflexivity ].
Qed.

(** X13.  The pairs [generate_currency_pair] can return are exactly the
    ordered pairs of two different codes of [CURRENCIES]: every result is
    such a pair, and each of the 56 such pairs is returned for some state
    of the random source. *)
Theorem currency_pair_image b s :
  (exists w w', generate_currency_pair w = Ok ((b, s), w')) <->
  (In b CURRENCIES /\ In s CURRENCIES /\ b <> s).
Proof.
  split.
  - intros (w & w' & H). apply generate_currency_pair_inv in H. tauto.
  - intros (Hb & Hs & Hne).
    pose proof (pair_draws_reach b s Hb Hs Hne) as H.
    apply existsb_exists in H as (d & _ & Hd).
    exists (world_of d []).
    destruct (run generate_currency_pair (world_of d [])) as [[b' s']|] eqn:E;
      [|discriminate Hd].
    apply andb_prop in Hd as [H1 H2].
    apply String.eqb_eq in H1, H2. subst b' s'.
    apply run_ok. exact E.
Qed.

Lemma advance_push_draw k w : advance (push_draw k w) = w.
Proof. destruct w; reflexivity. Qed.

Lemma choice_reach {A} (seq : list A) x w :
  In x seq -> exists k, random.choice seq (push_draw k w) = Ok (x, w).
Proof.
  intros Hin. apply In_nth_error in Hin as [n Hn].
  assert (Hlt : (n < List.length seq)%nat)
    by (apply nth_error_Some; rewrite Hn; discriminate).
  exists (Z.of_nat n). unfold random.choice.
  destruct seq as [|y seq']; [simpl in Hlt; lia|].
  rewrite (bind_ok _ _ _ _ _ (randbelow_run _ _)).
  rewrite advance_push_draw.
  change (rng (push_draw (Z.of_nat n) w) 0%nat) with (Z.of_nat n).
  rewrite Z.mod_small by lia. rewrite Nat2Z.id, Hn. reflexivity.
Qed.

Lemma choices_k_reach {A} (population : list A) xs w :
  Forall (fun x => In x population) xs ->
  exists w0, random.choices_k population (List.length xs) w0 = Ok (xs, w).
Proof.
  induction 1 as [|x xs Hx _ IH]; cbn [List.length random.choices_k].
  - now exists w.
  - destruct IH as [w1 Hw1]. destruct (choice_reach population x w1 Hx) as [k Hk].
    exists (push_draw k w1).
    rewrite (bind_ok _ _ _ _ _ Hk), (bind_ok _ _ _ _ _ Hw1). reflexivity.
Qed.

(** X14.  The references [generate_reference] can return for an order
    type are exactly the strings made of the prefix, "KCH-" for "chain"
    and "K-" for anything else, and any eight characters of A-Z and 0-9:
    no suffix is excluded. *)
Theorem reference_image order_type r :
  (exists w w', generate_reference order_type w = Ok (r, w')) <->
  (exists chars,
     List.length chars = 8%nat /\
     Forall (fun ch => In ch ascii_uppercase_digits) chars /\
     r = (if String.eqb order_type "chain" then "KCH-" else "K-")
           ++ string_of_list_ascii chars).
Proof.
  split.
  - intros (w & w' & H). apply generate_reference_inv in H. exact H.
  - intros (chars & Hlen & Hall & ->).
    destruct (choices_k_reach ascii_uppercase_digits chars (world_of [] []) Hall)
      as [w0 Hw0].
    rewrite Hlen in Hw0. exists w0, (world_of [] []).
    unfold generate_reference. rewrite (bind_ok _ _ _ _ _ Hw0).
    destruct (String.eqb order_type "chain"); reflexivity.
Qed.

(** ** The status draw *)

(** Magnitudes that fit in 53 bits are represented exactly, by the
    canonical mantissa and exponent of the same value. *)
Lemma binary_round_exact_value s p e :
  Z.log2 (Zpos p) <= 52 -> - 1074 <= e -> binade p e <= 1023 ->
  exists m' e',
    binary_round F64.prec F64.emax s p e = S754_finite s m' e' /\
    bounded F64.prec F64.emax m' e' = true /\
    e' <= e /\ Zpos m' = Zpos p * 2 ^ (e - e').
Proof.
  intros Hp He HL. unfold binary_round.
  pose proof (shl_align_binade p e (fexp F64.prec F64.emax (Zpos (digits2_pos p) + e))) as Hb.
  destruct (shl_align_spec p e (fexp F64.prec F64.emax (Zpos (digits2_pos p) + e))) as [Hz Hm].
  destruct (shl_align p e _) as [mz ez]. cbn [fst snd] in *.
  rewrite Zpos_digits2_log2, fexp_eq in Hz. unfold binade in *.
  assert (Hbd : bounded F64.prec F64.emax mz ez = true) by (apply bounded_intro; lia).
  rewrite (binary_round_aux_exact s mz ez Hbd).
  exists mz, ez. repeat split; [exact Hbd|lia|exact Hm].
Qed.

(** Two canonical representations of one magnitude coincide. *)
Lemma canonical_unique m e m' e' :
  bounded F64.prec F64.emax m e = true ->
  bounded F64.prec F64.emax m' e' = true ->
  e <= e' -> Zpos m' * 2 ^ (e' - e) = Zpos m ->
  m' = m /\ e' = e.
Proof.
  intros Hb Hb' Hle Hv.
  apply bounded_inv in Hb as [Hc _], Hb' as [Hc' _].
  assert (Hl : Z.log2 (Zpos m) = Z.log2 (Zpos m') + (e' - e))
    by (rewrite <- Hv; apply log2_mul_pow2; lia).
  assert (He : e' = e) by lia. subst e'.
  rewrite Z.sub_diag in Hv. change (2 ^ 0) with 1 in Hv.
  split; [lia|reflexivity].
Qed.

(** Multiplying a canonical float by [1.0] returns it. *)
Lemma mul_one m e :
  bounded F64.prec F64.emax m e = true -> binade m e <= 0 ->
  F64.mul (S754_finite false m e) (S754_finite false (2 ^ 52) (- 52))
    = S754_finite false m e.
Proof.
  intros Hb HL. unfold F64.mul. cbn [SFmul xorb].
  assert (Hb1 : bounded F64.prec F64.emax (2 ^ 52) (- 52) = true) by reflexivity.
  pose proof (mul_aligned m e (2 ^ 52) (- 52) Hb Hb1) as Hal.
  assert (Hp : Zpos (m * 2 ^ 52) = Zpos m * 2 ^ 52) by (rewrite Pos2Z.inj_mul; reflexivity).
  assert (Hl2 : Z.log2 (Zpos (m * 2 ^ 52)) = Z.log2 (Zpos m) + 52)
    by (rewrite Hp; apply log2_mul_pow2; lia).
  assert (HL' : binade (m * 2 ^ 52) (e + - 52) <= 1022)
    by (unfold binade in *; rewrite Hl2; lia).
  pose proof (binary_round_aux_binade false (m * 2 ^ 52) (e + - 52) loc_Exact Hal HL') as Hbin.
  pose proof (binary_round_aux_value false (m * 2 ^ 52) (e + - 52) Hal HL') as Hval.
  cbv zeta in Hval. destruct Hval as (m2 & Hm2 & Hval).
  pose proof (bounded_inv m e Hb) as [Hc _].
  assert (Hn1 : Z.max (fexp F64.prec F64.emax (Zdigits2 (Zpos (m * 2 ^ 52)) + (e + - 52))
                       - (e + - 52)) 0 = 52).
  { rewrite Zdigits2_log2, fexp_eq, Hl2. lia. }
  rewrite Hn1 in Hm2, Hval.
  assert (Hdiv : Zpos (m * 2 ^ 52) / 2 ^ 52 = Zpos m)
    by (rewrite Hp; apply Z.div_mul; lia).
  assert (Hmod : Zpos (m * 2 ^ 52) mod 2 ^ 52 = 0)
    by (rewrite Hp; apply Z.mod_mul; lia).
  assert (Hm2' : m2 = Zpos m) by (destruct Hm2 as [H|[_ H]]; [lia|contradiction]).
  subst m2.
  destruct (binary_round_aux _ _ _ _ _ _) as [s'|s'| |s' m' e']; try tauto.
  - discriminate Hval.
  - destruct Hbin as (-> & Hbd & _). destruct Hval as [Hle Hv].
    replace (e + - 52 + 52) with e in Hle, Hv by lia.
    destruct (canonical_unique m e m' e' Hb Hbd Hle Hv) as [-> ->]. reflexivity.
Qed.

Lemma le_scaled_total a ea b eb : le_scaled a ea b eb \/ le_scaled b eb a ea.
Proof. unfold le_scaled. rewrite (Z.min_comm eb ea). lia. Qed.

(** The strict comparison of two positive canonical floats. *)
Lemma ltb_scaled m e mY eY :
  bounded F64.prec F64.emax m e = true ->
  bounded F64.prec F64.emax mY eY = true ->
  F64.ltb (S754_finite false m e) (S754_finite false mY eY)
    = negb (if Z_le_dec (Zpos mY * 2 ^ (eY - Z.min e eY))
                        (Zpos m * 2 ^ (e - Z.min e eY)) then true else false).
Proof.
  intros Hb HbY.
  assert (Hcmp : forall a ea b eb,
            bounded F64.prec F64.emax a ea = true ->
            bounded F64.prec F64.emax b eb = true ->
            le_scaled (Zpos a) ea (Zpos b) eb -> ea <= eb).
  { intros a ea b eb Ha Hb' Hle.
    pose proof (le_scaled_binade (Zpos a) ea (Zpos b) eb ltac:(lia) ltac:(lia) Hle).
    apply bounded_inv in Ha as [Ha _], Hb' as [Hb' _]. lia. }
  unfold F64.ltb, SFltb, SFcompare.
  destruct (Z_le_dec _ _) as [Hle|Hnle]; cbn [negb].
  - assert (HleS : le_scaled (Zpos mY) eY (Zpos m) e)
      by (unfold le_scaled; rewrite (Z.min_comm eY e); exact Hle).
    pose proof (Hcmp _ _ _ _ HbY Hb HleS) as He.
    destruct (Z.compare_spec e eY) as [E|E|E]; [|lia|reflexivity].
    subst eY. rewrite Z.min_id, Z.sub_diag in Hle. change (2 ^ 0) with 1 in Hle.
    change (Pos.compare_cont Eq m mY) with (Pos.compare m mY).
    destruct (Pos.compare_spec m mY) as [E|E|E]; [reflexivity|lia|reflexivity].
  - assert (HleS : le_scaled (Zpos m) e (Zpos mY) eY)
      by (destruct (le_scaled_total (Zpos m) e (Zpos mY) eY) as [H|H]; [exact H|];
          exfalso; apply Hnle; unfold le_scaled in H;
          rewrite (Z.min_comm eY e) in H; exact H).
    pose proof (Hcmp _ _ _ _ Hb HbY HleS) as He.
    destruct (Z.compare_spec e eY) as [E|E|E]; [|reflexivity|lia].
    subst eY. rewrite Z.min_id, Z.sub_diag in Hnle. change (2 ^ 0) with 1 in Hnle.
    change (Pos.compare_cont Eq m mY) with (Pos.compare m mY).
    destruct (Pos.compare_spec m mY) as [E|E|E]; [lia|reflexivity|lia].
Qed.

(** [random()] on a raw draw [k] with [n = k mod 2^53]: the float
    [n * 2^-53] in canonical form. *)
Lemma random_of_value k :
  let n := k mod 2 ^ 53 in
  (n = 0 /\ random_of k = S754_zero false) \/
  (0 < n /\ exists m e,
     random_of k = S754_finite false m e /\
     bounded F64.prec F64.emax m e = true /\
     e <= - 53 /\ Zpos m = n * 2 ^ (- 53 - e)).
Proof.
  cbv zeta. pose proof (Z.mod_pos_bound k (2 ^ 53) ltac:(lia)) as Hk.
  unfold random_of, F64.ldexp. destruct (k mod 2 ^ 53) as [|p|p]; try lia.
  - left. split; reflexivity.
  - right. split; [lia|]. cbn [binary_normalize].
    assert (Hl : Z.log2 (Zpos p) < 53) by (apply Z.log2_lt_pow2; lia).
    pose proof (Z.log2_nonneg (Zpos p)) as Hn.
    destruct (binary_round_exact_value false p (- 53) ltac:(lia) ltac:(lia)
                ltac:(unfold binade; lia)) as (m & e & Hr & Hb & He & Hm).
    exists m, e. auto.
Qed.

(** The weighted draw once the checks on the weights have passed. *)
Lemma choices1_eq {A} (population : list A) weights w :
  weights_ok population weights = true ->
  random.choices1 population weights w =
    match nth_error population
            (random.bisect (random.accumulate weights)
               (F64.mul (random_of (rng w 0%nat))
                  (F64.add (last (random.accumulate weights) F64.zero) F64.zero))
               (List.length population - 1)) with
    | Some x => Ok (x, advance w)
    | None => Raise IndexError
    end.
Proof.
  unfold weights_ok, random.choices1. cbv zeta. intros H.
  apply andb_prop in H as [H Hfin]. apply andb_prop in H as [H Hpos].
  apply andb_prop in H as [Hlen Hne].
  rewrite Hlen. cbn [negb].
  destruct (random.accumulate weights) as [|c cs] eqn:Ec; [discriminate Hne|].
  apply negb_true_iff in Hpos. rewrite Hpos, Hfin. cbn [negb].
  rewrite (bind_ok _ _ _ _ _ (random_run w)). unfold random_of.
  destruct (nth_error population _); reflexivity.
Qed.

Lemma status_cum_weights :
  random.accumulate STATUS_WEIGHTS =
    [ S754_finite false (2 ^ 52) (- 53);
      S754_finite false 7205759403792794 (- 53);
      S754_finite false (2 ^ 52) (- 52) ] /\
  F64.add (S754_finite false (2 ^ 52) (- 52)) F64.zero
    = S754_finite false (2 ^ 52) (- 52).
Proof. vm_compute. split; reflexivity. Qed.

(** A threshold [t * 2^-53] against [random()]. *)
Lemma random_of_ltb k t :
  bounded F64.prec F64.emax t (- 53) = true ->
  F64.ltb (random_of k) (S754_finite false t (- 53)) = (k mod 2 ^ 53 <? Zpos t).
Proof.
  intros Ht. destruct (random_of_value k) as [[Hn Hr]|(Hn & m & e & Hr & Hb & He & Hm)];
    cbv zeta in *; rewrite Hr.
  - rewrite Hn. reflexivity.
  - rewrite (ltb_scaled m e t (- 53) Hb Ht).
    replace (Z.min e (- 53)) with e by lia. rewrite Z.sub_diag.
    change (2 ^ 0) with 1. rewrite Z.mul_1_r, Hm.
    assert (Hp : 0 < 2 ^ (- 53 - e)) by (apply Z.pow_pos_nonneg; lia).
    destruct (Z_le_dec _ _) as [Hle|Hnle]; cbn [negb]; symmetry.
    + apply Z.ltb_ge. apply Z.mul_le_mono_pos_r in Hle; assumption.
    + apply Z.ltb_lt. apply Z.nle_gt. intros Hle. apply Hnle.
      apply Z.mul_le_mono_nonneg_r; lia.
Qed.

Lemma random_of_mul_one k :
  F64.mul (random_of k) (S754_finite false (2 ^ 52) (- 52)) = random_of k.
Proof.
  destruct (random_of_value k) as [[Hn Hr]|(Hn & m & e & Hr & Hb & He & Hm)];
    cbv zeta in *; rewrite Hr.
  - reflexivity.
  - apply mul_one; [exact Hb|].
    pose proof (Z.mod_pos_bound k (2 ^ 53) ltac:(lia)) as Hk.
    unfold binade.
    assert (Hp : 0 < 2 ^ (- 53 - e)) by (apply Z.pow_pos_nonneg; lia).
    assert (Hl : Z.log2 (Zpos m) = Z.log2 (k mod 2 ^ 53) + (- 53 - e))
      by (rewrite Hm; apply log2_mul_pow2; lia).
    assert (Z.log2 (k mod 2 ^ 53) < 53) by (apply Z.log2_lt_pow2; lia).
    lia.
Qed.

(** X15.  The status draw [random.choices(STATUSES,
    weights=STATUS_WEIGHTS)[0]] never raises and is decided by the value
    [n * 2^-53] of the [random()] it consumes: "open" for [n < 2^52]
    ([random() < 0.5]), "closed_to_trading" up to
    [n < 7205759403792794] ([random() < 0.8]) and "completed" above; the
    cumulative weights add up to exactly [1.0]. *)
Theorem status_shares w :
  exists st,
    random.choices1 STATUSES STATUS_WEIGHTS w = Ok (st, advance w) /\
    let n := rng w 0%nat mod 2 ^ 53 in
    st = if n <? 2 ^ 52 then "open"
         else if n <? 7205759403792794 then "closed_to_trading"
         else "completed".
Proof.
  rewrite (choices1_eq STATUSES STATUS_WEIGHTS w eq_refl).
  destruct status_cum_weights as [Hcum Htot]. rewrite Hcum.
  cbn [last]. rewrite Htot, random_of_mul_one.
  cbn [random.bisect List.length STATUSES Nat.sub].
  rewrite (random_of_ltb _ (2 ^ 52) eq_refl).
  rewrite (random_of_ltb _ 7205759403792794 eq_refl).
  cbv zeta. change (Zpos (2 ^ 52)) with (2 ^ 52).
  destruct (_ <? 2 ^ 52); [eexists; split; reflexivity|].
  destruct (_ <? 7205759403792794); eexists; split; reflexivity.
Qed.

(** ** The share of EUR pairs *)

Lemma eur_threshold :
  F64.dec 7 1 = S754_finite false 6305039478318694 (- 53).
Proof. vm_compute. reflexivity. Qed.

(** X16.  A generated pair involves EUR exactly when the [random()] that
    [generate_currency_pair] draws first, of value [n * 2^-53], is below
    0.7, that is when [n < 6305039478318694]: the share the comment
    "70% involve EUR" announces, up to [2^-53]. *)
Theorem eur_share w :
  exists b s w',
    generate_currency_pair w = Ok ((b, s), w') /\
    ((b = "EUR" \/ s = "EUR") <-> rng w 0%nat mod 2 ^ 53 < 6305039478318694).
Proof.
  unfold generate_currency_pair.
  rewrite (bind_ok _ _ _ _ _ (random_run w)).
  fold (random_of (rng w 0%nat)).
  rewrite eur_threshold, (random_of_ltb _ 6305039478318694 eq_refl).
  destruct (Z.ltb_spec (rng w 0%nat mod 2 ^ 53) 6305039478318694) as [Hlt|Hge].
  - rewrite (bind_ok _ _ _ _ _
               (choice_run non_eur "EUR" (advance w) ltac:(discriminate))).
    rewrite (bind_ok _ _ _ _ _ (random_run _)).
    destruct (F64.ltb _ (F64.dec 5 1)); eexists _, _, _; (split; [reflexivity|]);
      split; auto.
  - destruct (sample_loop_total non_eur (List.length non_eur) 2 (advance w))
      as (xs & w' & Hxs & Hlen); [cbn; lia|].
    assert (Hs : random.sample non_eur 2 (advance w) = Ok (xs, w')) by exact Hxs.
    rewrite (bind_ok _ _ _ _ _ Hs).
    destruct xs as [|x [|y [|z xs]]]; try discriminate Hlen.
    apply sample_loop_two_distinct in Hxs as (_ & Hx & Hy);
      [|apply NoDup_non_eur|cbn; lia].
    apply non_eur_spec in Hx as [_ Hx], Hy as [_ Hy].
    exists x, y, w'. split; [reflexivity|].
    split; [intros [E|E]; contradiction|intros Hlt; lia].
Qed.

